(** * OpenHantek6022 post-processing: math channel and spectrum generator

    A shallow embedding of [MathChannelGenerator::process]
    (post/mathchannelgenerator.cpp) and [SpectrumGenerator::process]
    (post/spectrumgenerator.cpp) over the containers of post/ppresult.h.

    Number model.  A C++ [double] is read as a real number: the
    development describes the exact-arithmetic meaning of the program,
    rounding, infinities and NaN are not represented.  [size_t] values
    are natural numbers, [unsigned int] values are integers reduced
    modulo 2^32 wherever the program computes with them.  A loop whose
    [unsigned int] counter runs up to a [size_t] bound is modelled by
    the iterations it makes when the bound is below 2^32.

    The FFTW transforms and the C library logarithm are parameters of
    the model of [SpectrumGenerator::process]. *)

From Stdlib Require Import Reals ZArith List Bool Lia Lra.
Import ListNotations.

Open Scope R_scope.

(** ** Containers (post/ppresult.h) *)

Record SampleValues : Type := mkSampleValues {
  sample : list R;
  interval : R
}.

Record DataChannel : Type := mkDataChannel {
  voltage : SampleValues;
  spectrum : SampleValues;
  frequency : R;
  dc : R;
  ac : R;
  rms : R;
  valid : bool
}.

(** The graph buffers of [PPresult] belong to the display code and are
    not touched by the two generators; they are left out. *)
Record PPresult : Type := mkPPresult {
  softwareTriggerTriggered : bool;
  skipSamples : Z;
  analyzedData : list DataChannel
}.

Definition channelCount (result : PPresult) : nat :=
  length (analyzedData result).

(** [PPresult::data]: a channel index outside the container has no
    defined result. *)
Definition data (result : PPresult) (channel : nat) : option DataChannel :=
  nth_error (analyzedData result) channel.

(** Assignment to one slot of a vector; an index past the end changes
    nothing. *)
Fixpoint assign {A : Type} (l : list A) (i : nat) (x : A) : list A :=
  match l, i with
  | [], _ => []
  | _ :: t, O => x :: t
  | h :: t, S j => h :: assign t j x
  end.

(** [PPresult::modifyData] followed by the writes [f] to the record it
    points to. *)
Definition modifyData (result : PPresult) (channel : nat)
    (f : DataChannel -> DataChannel) : PPresult :=
  match data result channel with
  | Some channelData =>
      mkPPresult (softwareTriggerTriggered result) (skipSamples result)
        (assign (analyzedData result) channel (f channelData))
  | None => result
  end.

(** [std::vector<double>::resize]: keeps a prefix, pads with 0.0. *)
Definition resize (n : nat) (v : list R) : list R :=
  firstn n v ++ repeat 0 (n - length v).

(** 32-bit [unsigned int] arithmetic. *)
Definition uint (z : Z) : Z := (z mod 2 ^ 32)%Z.

(** Comparisons of doubles as the conditions of [if] statements. *)
Definition Rgtb (a b : R) : bool := if Rgt_dec a b then true else false.
Definition Rltb (a b : R) : bool := if Rlt_dec a b then true else false.
Definition Reqb (a b : R) : bool := if Req_dec_T a b then true else false.

(** ** Settings read by the generators (scopesettings.h, enums.h) *)

(** [Dso::MathMode], the three operators the [switch] of
    [MathChannelGenerator::process] distinguishes. *)
Inductive MathMode : Type :=
  | ADD_CH1_CH2
  | SUB_CH2_FROM_CH1
  | SUB_CH1_FROM_CH2.

(** The part of [DsoSettingsScope] that the generators read: the [used]
    flags of the voltage and spectrum settings of each channel, and the
    math mode that [Dso::getMathMode] extracts from the voltage
    settings of a channel. *)
Record DsoSettingsScope : Type := mkScope {
  voltage_used : nat -> bool;
  spectrum_used : nat -> bool;
  getMathMode : nat -> MathMode
}.

(** ** MathChannelGenerator (post/mathchannelgenerator.cpp) *)

Module MathChannel.

Record MathChannelGenerator : Type := mkGenerator {
  physicalChannels : nat;
  scope : DsoSettingsScope
}.

(** One execution of the [switch] statement. *)
Definition combine_samples (mode : MathMode) (ch1 ch2 : R) : R :=
  match mode with
  | ADD_CH1_CH2 => ch1 + ch2
  | SUB_CH2_FROM_CH1 => ch1 - ch2
  | SUB_CH1_FROM_CH2 => ch2 - ch1
  end.

(** The inner loop: [it] walks [resultData] while [ch1Iterator] and
    [ch2Iterator] advance in step.  The program never moves an input
    iterator past its end, because [resultData] was resized to the
    shorter input; the last case keeps the function total. *)
Fixpoint fill (mode : MathMode) (resultData ch1 ch2 : list R) : list R :=
  match resultData, ch1, ch2 with
  | [], _, _ => []
  | _ :: rest, a :: t1, b :: t2 => combine_samples mode a b :: fill mode rest t1 t2
  | x :: rest, _, _ => x :: rest
  end.

(** Body of the channel loop after the [used] test, as one update of
    the record [channelData] points to. *)
Definition derive (g : MathChannelGenerator) (d0 d1 channelData : DataChannel)
    : DataChannel :=
  let ch1 := sample (voltage d0) in
  let ch2 := sample (voltage d1) in
  let resultData :=
    resize (Nat.min (length ch1) (length ch2)) (sample (voltage channelData)) in
  mkDataChannel
    (mkSampleValues
       (fill (getMathMode (scope g) (physicalChannels g)) resultData ch1 ch2)
       (interval (voltage d0)))
    (spectrum channelData) (frequency channelData) (dc channelData)
    (ac channelData) (rms channelData) (valid channelData).

(** One iteration of the channel loop.  Channels 0 and 1 are read from
    the container as it is when the iteration starts. *)
Definition step (g : MathChannelGenerator) (result : PPresult) (channel : nat)
    : PPresult :=
  if negb (voltage_used (scope g) channel) && negb (spectrum_used (scope g) channel)
  then result
  else
    match data result 0, data result 1 with
    | Some d0, Some d1 => modifyData result channel (derive g d0 d1)
    | _, _ => result
    end.

(** [MathChannelGenerator::process].  [None] stands for the undefined
    behaviour of reading channel 0 or 1 of a container that has fewer
    than two channels. *)
Definition process (g : MathChannelGenerator) (result : PPresult)
    : option PPresult :=
  match data result 0, data result 1 with
  | Some d0, Some d1 =>
      let channelsHaveData :=
        negb (Nat.eqb (length (sample (voltage d0))) 0)
        && negb (Nat.eqb (length (sample (voltage d1))) 0) in
      if negb channelsHaveData then Some result
      else
        Some (fold_left (step g)
                (seq (physicalChannels g) (channelCount result - physicalChannels g))
                result)
  | _, _ => None
  end.

End MathChannel.

(** ** SpectrumGenerator (post/spectrumgenerator.cpp) *)

Module Spectrum.

(** [Dso::WindowFunction] (enums.h): the enumerators named by the
    [switch] of [process]; RECTANGULAR is the one its [default] branch
    is commented with. *)
Inductive WindowFunction : Type :=
  | RECTANGULAR
  | HAMMING
  | HANN
  | COSINE
  | LANCZOS
  | BARTLETT
  | TRIANGULAR
  | GAUSS
  | BARTLETTHANN
  | BLACKMAN
  | NUTTALL
  | BLACKMANHARRIS
  | BLACKMANNUTTALL
  | FLATTOP.

Definition WindowFunction_eq_dec (a b : WindowFunction) : {a = b} + {a <> b}.
Proof. decide equality. Defined.

Record DsoSettingsPostProcessing : Type := mkPostProcessing {
  spectrumWindow : WindowFunction;
  spectrumReference : R;
  spectrumLimit : R
}.

(** The members of the class: the two settings pointers and the window
    cache ([lastWindowBuffer] is [None] for the null pointer). *)
Record SpectrumGenerator : Type := mkSpectrumGenerator {
  scope : DsoSettingsScope;
  postprocessing : DsoSettingsPostProcessing;
  lastRecordLength : Z;
  lastWindow : WindowFunction;
  lastWindowBuffer : option (list R)
}.

(** *** Window functions *)

(** The right-hand side of the assignment to
    [*(lastWindowBuffer + windowPosition)] in each branch of the
    [switch].  [lastRecordLength], [windowEnd] and [windowPosition] are
    [unsigned int]: a quotient or difference of two of them is computed
    on integers before it meets a [double]. *)
Definition windowValue (w : WindowFunction)
    (lastRecordLength windowEnd windowPosition : Z) : R :=
  let p := IZR windowPosition in
  let e := IZR windowEnd in
  match w with
  | HAMMING => 0.54 - 0.46 * cos (2.0 * PI * p / e)
  | HANN => 0.5 * (1.0 - cos (2.0 * PI * p / e))
  | COSINE => sin (PI * p / e)
  | LANCZOS =>
      let sincParameter := (2.0 * p / e - 1.0) * PI in
      if Reqb sincParameter 0 then 1 else sin sincParameter / sincParameter
  | BARTLETT =>
      2.0 / e * (IZR (windowEnd / 2) - Rabs (p - e / 2.0))
  | TRIANGULAR =>
      2.0 / IZR lastRecordLength
      * (IZR (lastRecordLength / 2) - Rabs (p - e / 2.0))
  | GAUSS =>
      let sigma := 0.4 in
      exp (-0.5 * pow (IZR (uint (windowPosition - windowEnd / 2))
                       / (sigma * e / 2)) 2%nat)
  | BARTLETTHANN =>
      0.62 - 0.48 * Rabs (IZR (windowPosition / windowEnd) - 0.5)
      - 0.38 * cos (2.0 * PI * p / e)
  | BLACKMAN =>
      let alpha := 0.16 in
      (1 - alpha) / 2 - 0.5 * cos (2.0 * PI * p / e)
      + alpha / 2 * cos (4.0 * PI * p / e)
  | NUTTALL =>
      0.355768 - 0.487396 * cos (2 * PI * p / e)
      + 0.144232 * cos (4 * PI * p / e)
      - 0.012604 * cos (6 * PI * p / e)
  | BLACKMANHARRIS =>
      0.35875 - 0.48829 * cos (2 * PI * p / e)
      + 0.14128 * cos (4 * PI * p / e)
      - 0.01168 * cos (6 * PI * p / e)
  | BLACKMANNUTTALL =>
      0.3635819 - 0.4891775 * cos (2 * PI * p / e)
      + 0.1365995 * cos (4 * PI * p / e)
      - 0.0106411 * cos (6 * PI * p / e)
  | FLATTOP =>
      1.0 - 1.93 * cos (2 * PI * p / e)
      + 1.29 * cos (4 * PI * p / e)
      - 0.388 * cos (6 * PI * p / e)
      + 0.028 * cos (8 * PI * p / e)
  | RECTANGULAR => 1.0
  end.

(** [lastRecordLength = (unsigned)sampleCount]. *)
Definition recordLength (sampleCount : nat) : Z := uint (Z.of_nat sampleCount).

(** [windowEnd = lastRecordLength - 1]. *)
Definition windowEnd (sampleCount : nat) : Z := uint (recordLength sampleCount - 1).

(** The buffer the [switch] fills: positions [0 .. lastRecordLength-1]. *)
Definition computeWindow (w : WindowFunction) (sampleCount : nat) : list R :=
  map (fun windowPosition =>
         windowValue w (recordLength sampleCount) (windowEnd sampleCount)
           (Z.of_nat windowPosition))
      (seq 0 (Z.to_nat (recordLength sampleCount))).

(** The condition of the cache test. *)
Definition windowCacheMiss (g : SpectrumGenerator) (sampleCount : nat) : bool :=
  match lastWindowBuffer g with None => true | Some _ => false end
  || (if WindowFunction_eq_dec (lastWindow g) (spectrumWindow (postprocessing g))
      then false else true)
  || negb (Z.eqb (lastRecordLength g) (Z.of_nat sampleCount)).

(** "Calculate new window". *)
Definition updateWindow (g : SpectrumGenerator) (sampleCount : nat)
    : SpectrumGenerator :=
  if windowCacheMiss g sampleCount then
    mkSpectrumGenerator (scope g) (postprocessing g)
      (recordLength sampleCount)
      (spectrumWindow (postprocessing g))
      (Some (computeWindow (spectrumWindow (postprocessing g)) sampleCount))
  else g.

Definition windowBuffer (g : SpectrumGenerator) : list R :=
  match lastWindowBuffer g with
  | Some buffer => buffer
  | None => []
  end.

(** *** Statistics and windowing *)

(** First loop: [dc += sample[position]], then [dc /= sampleCount]. *)
Definition mean (v : list R) : R :=
  fold_left (fun dc x => dc + x) v 0.0 / INR (length v).

(** Second loop, the accumulation of [ac2], then [ac2 /= sampleCount]. *)
Definition meanSquare (v : list R) (dc : R) : R :=
  fold_left (fun ac2 x => let ac_sample := x - dc in ac2 + ac_sample * ac_sample)
            v 0.0
  / INR (length v).

(** Second loop, the writes to [windowedValues]. *)
Definition applyWindow (window v : list R) (dc : R) : list R :=
  map (fun position => nth position window 0 * (nth position v 0 - dc))
      (seq 0 (length v)).

(** *** Half-complex spectrum and autocorrelation input *)

(** [unsigned int dftLength = sampleCount / 2]. *)
Definition dftLength (sampleCount : nat) : Z := uint (Z.of_nat sampleCount / 2).

Definition correctionFactor (sampleCount : nat) : R :=
  1.0 / IZR (dftLength sampleCount) / IZR (dftLength sampleCount).

(** One iteration of the magnitude loop on the pair of buffers
    ([spectrum.sample], [conjugateComplex]): [fwd] is at index
    [position], [rev] at [size - position]. *)
Definition magnitudeStep (factor : R) (buffers : list R * list R) (position : nat)
    : list R * list R :=
  let '(spec, conjugateComplex) := buffers in
  let fwd := nth position spec 0 in
  let rev := nth (length spec - position) spec 0 in
  (assign spec position (sqrt (fwd * fwd + rev * rev)),
   assign conjugateComplex position ((fwd * fwd + rev * rev) * factor)).

(** Lines 190-208.  [conjugateComplex] starts as the buffer moved from
    [windowedValues].  After the magnitude loop [position] is
    [dftLength], or 1 when the loop body never ran.  For a single
    sample the program writes [conjugateComplex[1]] past the end of the
    buffer; [assign] drops that write. *)
Definition magnitudes (sampleCount : nat) (spec windowedValues : list R)
    : list R * list R :=
  let factor := correctionFactor sampleCount in
  let dft := Z.to_nat (dftLength sampleCount) in
  let first := nth 0 spec 0 in
  let conjugateComplex0 := assign windowedValues 0 (first * first * factor) in
  let '(spec1, conjugateComplex1) :=
    fold_left (magnitudeStep factor) (seq 1 (dft - 1)) (spec, conjugateComplex0) in
  let position := Nat.max 1 dft in
  let fwd := nth position spec1 0 in
  let conjugateComplex2 := assign conjugateComplex1 position (fwd * fwd * factor) in
  (spec1,
   fold_left (fun buffer k => assign buffer k 0)
             (seq (S position) (sampleCount - S position)) conjugateComplex2).

(** [resize( dftLength-1 )]: the subtraction is on [unsigned int]. *)
Definition spectrumLength (sampleCount : nat) : nat :=
  Z.to_nat (uint (dftLength sampleCount - 1)).

(** *** Peak search in the correlation *)

Record PeakSearch : Type := mkPeakSearch {
  minimumCorrelation : R;
  peakCorrelation : R;
  peakPosition : nat
}.

(** Body of the loop of lines 223-229. *)
Definition scanStep (correlation : list R) (st : PeakSearch) (position : nat)
    : PeakSearch :=
  let c := nth position correlation 0 in
  if Rgtb c (peakCorrelation st) && Rgtb c (minimumCorrelation st) then
    mkPeakSearch (minimumCorrelation st) c position
  else if Rltb c (minimumCorrelation st) then
    mkPeakSearch c (peakCorrelation st) (peakPosition st)
  else st.

(** The loop over [position = 1 .. sampleCount / 2 - 1]. *)
Definition scanCorrelation (correlation : list R) (sampleCount : nat) : PeakSearch :=
  fold_left (scanStep correlation) (seq 1 (sampleCount / 2 - 1))
            (mkPeakSearch (nth 0 correlation 0) 0 0).

(** Lines 234-237. *)
Definition autocorrelationFrequency (voltageInterval : R) (peak : nat) : R :=
  if Nat.ltb 100 peak then 1.0 / (voltageInterval * INR peak) else 0.

Section Transforms.

(** The library functions the program calls and this repository does
    not define.  [r2hc input k] and [hc2r input k] are the [k]-th
    outputs of the FFTW plans [FFTW_R2HC] and [FFTW_HC2R] run on
    [input]; [log10] is the C library function. *)
Variable r2hc : list R -> nat -> R.
Variable hc2r : list R -> nat -> R.
Variable log10 : R -> R.

(** [fftw_execute] of a plan of length [n]: fills [n] outputs. *)
Definition execute (plan : list R -> nat -> R) (n : nat) (input : list R) : list R :=
  map (plan input) (seq 0 n).

(** *** Conversion to dB and spectral peak *)

Definition dBOffset (pp : DsoSettingsPostProcessing) (sampleCount : nat) : R :=
  60 - spectrumReference pp - 20 * log10 (IZR (dftLength sampleCount)).

Definition dBOffsetLimit (pp : DsoSettingsPostProcessing) : R :=
  spectrumLimit pp - spectrumReference pp.

(** The value written back to [*spectrumIterator]. *)
Definition dBValue (offset offsetLimit bin : R) : R :=
  let value := 20 * log10 (Rabs bin) + offset in
  if Rgtb offsetLimit value then offsetLimit else value.

(** The conversion loop: returns the converted bins and the final
    [peakPos]. *)
Fixpoint dBLoop (offset offsetLimit : R) (bins : list R)
    (position : nat) (peakSpectrum : R) (peakPos : nat) : list R * nat :=
  match bins with
  | [] => ([], peakPos)
  | bin :: rest =>
      let value := dBValue offset offsetLimit bin in
      let '(converted, final) :=
        if Rltb peakSpectrum value
        then dBLoop offset offsetLimit rest (S position) value position
        else dBLoop offset offsetLimit rest (S position) peakSpectrum peakPos in
      (value :: converted, final)
  end.

(** Lines 240-262.  [peakSpectrum] starts as the first element of the
    truncated spectrum before its conversion; when the spectrum is
    empty the loop does not run and the start value is never used. *)
Definition finalSpectrum (pp : DsoSettingsPostProcessing) (sampleCount : nat)
    (used : bool) (frequency0 : R) (bins : list R) : list R * nat :=
  if used || Reqb 0 frequency0 then
    dBLoop (dBOffset pp sampleCount) (dBOffsetLimit pp) bins 0 (hd 0 bins) 0
  else (bins, 0%nat).

(** *** One channel *)

(** The stages of the loop body for a channel with samples, each named
    after the variable that holds it. *)
Definition windowedValues (g : SpectrumGenerator) (v : list R) : list R :=
  applyWindow (windowBuffer (updateWindow g (length v))) v (mean v).

Definition transformed (g : SpectrumGenerator) (v : list R) : list R * list R :=
  magnitudes (length v)
    (execute r2hc (length v) (windowedValues g v))
    (windowedValues g v).

Definition truncatedSpectrum (g : SpectrumGenerator) (v : list R) : list R :=
  resize (spectrumLength (length v)) (fst (transformed g v)).

Definition correlation (g : SpectrumGenerator) (v : list R) : list R :=
  execute hc2r (length v) (snd (transformed g v)).

Definition processChannel (g : SpectrumGenerator) (channel : nat)
    (channelData : DataChannel) : SpectrumGenerator * DataChannel :=
  let v := sample (voltage channelData) in
  if Nat.eqb (length v) 0 then
    (g, mkDataChannel (voltage channelData) (mkSampleValues [] 0)
          (frequency channelData) (dc channelData) (ac channelData)
          (rms channelData) (valid channelData))
  else
    let sampleCount := length v in
    let dc := mean v in
    let ac2 := meanSquare v dc in
    let peak := peakPosition (scanCorrelation (correlation g v) sampleCount) in
    let frequency0 := autocorrelationFrequency (interval (voltage channelData)) peak in
    let spectrumInterval := 1.0 / interval (voltage channelData) / INR sampleCount in
    let '(bins, peakPos) :=
      finalSpectrum (postprocessing g) sampleCount
        (spectrum_used (scope g) channel) frequency0 (truncatedSpectrum g v) in
    (updateWindow g sampleCount,
     mkDataChannel (voltage channelData)
       (mkSampleValues bins spectrumInterval)
       (if Nat.eqb peakPos 0 then frequency0 else spectrumInterval * INR peakPos)
       dc (sqrt ac2) (sqrt (dc * dc + ac2))
       (valid channelData)).

(** *** All channels *)

Fixpoint processChannels (g : SpectrumGenerator) (channel : nat)
    (channels : list DataChannel) : SpectrumGenerator * list DataChannel :=
  match channels with
  | [] => (g, [])
  | channelData :: rest =>
      let '(g1, analyzed) := processChannel g channel channelData in
      let '(g2, others) := processChannels g1 (S channel) rest in
      (g2, analyzed :: others)
  end.

(** [SpectrumGenerator::process]. *)
Definition process (g : SpectrumGenerator) (result : PPresult)
    : SpectrumGenerator * PPresult :=
  let '(g', channels) := processChannels g 0 (analyzedData result) in
  (g', mkPPresult (softwareTriggerTriggered result) (skipSamples result) channels).

End Transforms.

End Spectrum.

(** ** Reference notions used in the statements *)

(** Sum of a sequence and its arithmetic mean. *)
Definition total (l : list R) : R := fold_right Rplus 0 l.

Definition arithmeticMean (l : list R) : R := total l / INR (length l).

(** Least value among [correlation[0 .. k]]. *)
Fixpoint runningMinimum (correlation : list R) (k : nat) : R :=
  match k with
  | O => nth 0 correlation 0
  | S j => Rmin (runningMinimum correlation j) (nth (S j) correlation 0)
  end.

(** A correlation value qualifies as a peak when it is positive and
    above the least value before it; a candidate is a scanned index
    whose value qualifies. *)
Definition qualifies (correlation : list R) (q : nat) : Prop :=
  nth q correlation 0 > 0
  /\ nth q correlation 0 > runningMinimum correlation (q - 1).

Definition candidate (correlation : list R) (sampleCount q : nat) : Prop :=
  (1 <= q < sampleCount / 2)%nat /\ qualifies correlation q.

(** What the peak search has established after the positions
    [1 .. k]. *)
Definition scanned (correlation : list R) (k : nat) (st : Spectrum.PeakSearch)
    : Prop :=
  Spectrum.minimumCorrelation st = runningMinimum correlation k
  /\ 0 <= Spectrum.peakCorrelation st
  /\ ((Spectrum.peakPosition st = 0%nat
       /\ Spectrum.peakCorrelation st = 0
       /\ forall q : nat, (1 <= q <= k)%nat -> ~ qualifies correlation q)
      \/ ((1 <= Spectrum.peakPosition st <= k)%nat
          /\ Spectrum.peakCorrelation st
             = nth (Spectrum.peakPosition st) correlation 0
          /\ qualifies correlation (Spectrum.peakPosition st)
          /\ forall q : nat, (1 <= q <= k)%nat ->
               qualifies correlation q ->
               nth q correlation 0 <= Spectrum.peakCorrelation st
               /\ (nth q correlation 0 = Spectrum.peakCorrelation st ->
                   (Spectrum.peakPosition st <= q)%nat))).

(** The peak as the specification words it: a scanned index that is a
    local maximum (no neighbour is larger) above the running minimum,
    with no such index before it. *)
Definition spec_localMaximum (correlation : list R) (sampleCount q : nat) : Prop :=
  (1 <= q < sampleCount / 2)%nat
  /\ nth (q - 1) correlation 0 <= nth q correlation 0
  /\ nth (q + 1) correlation 0 <= nth q correlation 0
  /\ nth q correlation 0 > runningMinimum correlation (q - 1).

Definition spec_firstLocalMaximum (correlation : list R) (sampleCount p : nat)
    : Prop :=
  spec_localMaximum correlation sampleCount p
  /\ forall q : nat, (q < p)%nat -> ~ spec_localMaximum correlation sampleCount q.

(** The window shapes as the specification describes them: the
    expression of each window over the reals, as a function of
    [x = p / (N - 1)]; the triangular window also depends on [n = N]. *)
Definition spec_windowShape (w : Spectrum.WindowFunction) (n x : R) : R :=
  match w with
  | Spectrum.HAMMING => 0.54 - 0.46 * cos (2 * PI * x)
  | Spectrum.HANN => 0.5 * (1 - cos (2 * PI * x))
  | Spectrum.COSINE => sin (PI * x)
  | Spectrum.LANCZOS =>
      if Reqb ((2 * x - 1) * PI) 0 then 1
      else sin ((2 * x - 1) * PI) / ((2 * x - 1) * PI)
  | Spectrum.BARTLETT => 2 * (1 / 2 - Rabs (x - 1 / 2))
  | Spectrum.TRIANGULAR => 2 / n * (n / 2 - Rabs (x * (n - 1) - (n - 1) / 2))
  | Spectrum.GAUSS => exp (-0.5 * pow ((x - 1 / 2) / (0.4 / 2)) 2%nat)
  | Spectrum.BARTLETTHANN =>
      0.62 - 0.48 * Rabs (x - 0.5) - 0.38 * cos (2 * PI * x)
  | Spectrum.BLACKMAN =>
      (1 - 0.16) / 2 - 0.5 * cos (2 * PI * x) + 0.16 / 2 * cos (4 * PI * x)
  | Spectrum.NUTTALL =>
      0.355768 - 0.487396 * cos (2 * PI * x) + 0.144232 * cos (4 * PI * x)
      - 0.012604 * cos (6 * PI * x)
  | Spectrum.BLACKMANHARRIS =>
      0.35875 - 0.48829 * cos (2 * PI * x) + 0.14128 * cos (4 * PI * x)
      - 0.01168 * cos (6 * PI * x)
  | Spectrum.BLACKMANNUTTALL =>
      0.3635819 - 0.4891775 * cos (2 * PI * x) + 0.1365995 * cos (4 * PI * x)
      - 0.0106411 * cos (6 * PI * x)
  | Spectrum.FLATTOP =>
      1 - 1.93 * cos (2 * PI * x) + 1.29 * cos (4 * PI * x)
      - 0.388 * cos (6 * PI * x) + 0.028 * cos (8 * PI * x)
  | Spectrum.RECTANGULAR => 1
  end.

(** Windows whose source expression computes a quotient or a difference
    on [unsigned int] operands at the boundary positions. *)
Definition integerArithmeticWindow (w : Spectrum.WindowFunction) : bool :=
  match w with
  | Spectrum.BARTLETT | Spectrum.TRIANGULAR | Spectrum.GAUSS => true
  | _ => false
  end.

(** ** Sample inputs *)

Definition sampleChannel (v : list R) (dt : R) : DataChannel :=
  mkDataChannel (mkSampleValues v dt) (mkSampleValues [] 0) 0 0 0 0 true.

Definition sampleScope : DsoSettingsScope :=
  mkScope (fun _ => true) (fun _ => true) (fun _ => ADD_CH1_CH2).

(** A scope with every channel enabled and the math channel in the
    given mode. *)
Definition scopeWithMode (mode : MathMode) : DsoSettingsScope :=
  mkScope (fun _ => true) (fun _ => true) (fun _ => mode).

Definition sampleResult : PPresult :=
  mkPPresult false 0%Z
    [sampleChannel [1; 2; 3; 4; 5] 1; sampleChannel [4; 5; 6] 1;
     sampleChannel [] 0].

Definition sampleGenerator : Spectrum.SpectrumGenerator :=
  Spectrum.mkSpectrumGenerator sampleScope
    (Spectrum.mkPostProcessing Spectrum.HAMMING 20 (-60))
    0%Z Spectrum.RECTANGULAR None.

(** Stand-ins for the library functions in the examples: a transform
    whose every output is 0, and the logarithm to base 10. *)
Definition zeroTransform (input : list R) (k : nat) : R := 0.

Definition decimalLog (x : R) : R := ln x / ln 10.

(** A four-sample channel and its analysis with the stand-in library
    functions. *)
Definition fourSamples : DataChannel := sampleChannel [1; 2; 3; 4] 1.

Definition fourSamplesAnalyzed : DataChannel :=
  snd (Spectrum.processChannel zeroTransform zeroTransform decimalLog
         sampleGenerator 0 fourSamples).

(** A transform stand-in whose outputs are read from a table, and a
    ten-sample channel whose correlation is the two-peak sequence. *)
Definition tableTransform (table : list R) (input : list R) (k : nat) : R :=
  nth k table 0.

Definition twoPeaks : list R := [5; 1; 2; 1; 3; 1; 3; 1; 2; 1].

Definition tenSamples : DataChannel :=
  sampleChannel [1; 2; 3; 4; 5; 5; 4; 3; 2; 1] 1.

(** The transform the FFTW manual specifies for a plan of kind
    [FFTW_R2HC] on [n] real inputs: output [k <= n/2] is the real part
    of [Y_k = sum_j X_j exp (- 2 pi i j k / n)], output [n - k] the
    imaginary part of [Y_k]. *)
Definition halfComplex (input : list R) (k : nat) : R :=
  let n := length input in
  if Nat.leb k (n / 2) then
    total (map (fun j => nth j input 0 * cos (2 * PI * INR j * INR k / INR n))
               (seq 0 n))
  else
    total (map (fun j =>
                  - (nth j input 0 * sin (2 * PI * INR j * INR (n - k) / INR n)))
               (seq 0 n)).

(** A weak signal of six samples, analysed with the triangular window,
    reference level 20 dB and display limit -60 dB. *)
Definition weakSignal : DataChannel :=
  sampleChannel [-0.0015; 0; 0.0015; 0; 0; 0] 1.

Definition triangularGenerator : Spectrum.SpectrumGenerator :=
  Spectrum.mkSpectrumGenerator sampleScope
    (Spectrum.mkPostProcessing Spectrum.TRIANGULAR 20 (-60))
    0%Z Spectrum.RECTANGULAR None.

(** ** Notions used in the further properties *)

(** Two channel records that differ at most in their voltage series. *)
Definition sameAnalysis (d d' : DataChannel) : Prop :=
  spectrum d' = spectrum d
  /\ frequency d' = frequency d
  /\ dc d' = dc d
  /\ ac d' = ac d
  /\ rms d' = rms d
  /\ valid d' = valid d.

(** Windows whose coefficient formulas, read over the real numbers, take
    values between 0 and 1. *)
Definition unitRangeWindow (w : Spectrum.WindowFunction) : bool :=
  match w with
  | Spectrum.RECTANGULAR | Spectrum.HAMMING | Spectrum.HANN
  | Spectrum.COSINE | Spectrum.LANCZOS | Spectrum.TRIANGULAR
  | Spectrum.BARTLETTHANN | Spectrum.BLACKMAN => true
  | _ => false
  end.

(** The window cache is coherent when its buffer, if there is one, holds
    the coefficients of the kind and length it is tagged with. *)
Definition cacheCoherent (g : Spectrum.SpectrumGenerator) : Prop :=
  match Spectrum.lastWindowBuffer g with
  | None => True
  | Some buffer =>
      (0 <= Spectrum.lastRecordLength g < 2 ^ 32)%Z
      /\ buffer = Spectrum.computeWindow (Spectrum.lastWindow g)
                   (Z.to_nat (Spectrum.lastRecordLength g))
  end.

(** Two generators that read the same settings. *)
Definition sameSettings (g g' : Spectrum.SpectrumGenerator) : Prop :=
  Spectrum.scope g = Spectrum.scope g'
  /\ Spectrum.postprocessing g = Spectrum.postprocessing g'.

(** The squared magnitude the loop computes for position [k] of a
    half-complex array of [n] entries. *)
Definition power (spec : list R) (k : nat) : R :=
  nth k spec 0 * nth k spec 0
  + nth (length spec - k) spec 0 * nth (length spec - k) spec 0.

(** Inputs for the further properties: a generator whose cache already
    holds the Hamming window of four samples, a six-sample channel, the
    four-sample channel raised by 1, a constant channel, and a
    correlation that only falls. *)
Definition warmGenerator : Spectrum.SpectrumGenerator :=
  Spectrum.updateWindow sampleGenerator 4.

Definition sixSamples : DataChannel := sampleChannel [1; 2; 3; 3; 2; 1] 1.

Definition fourSamplesRaised : DataChannel := sampleChannel [2; 3; 4; 5] 1.

Definition constantChannel : DataChannel := sampleChannel (repeat 5 3) 1.

Definition fallingCorrelation : list R := [4; 3; 2; 1; 1; 1; 2; 3].

(** * Properties *)

(** ** Vector helpers *)

Lemma assign_length {A : Type} (l : list A) (i : nat) (x : A) :
  length (assign l i x) = length l.
Proof.
  revert i; induction l as [|h t IH]; intros [|j]; simpl; auto.
Qed.

Lemma assign_same {A : Type} (l : list A) (i : nat) (x : A) :
  (i < length l)%nat -> nth_error (assign l i x) i = Some x.
Proof.
  revert i; induction l as [|h t IH]; intros [|j] H; simpl in *; try lia; auto.
  apply IH; lia.
Qed.

Lemma assign_other {A : Type} (l : list A) (i j : nat) (x : A) :
  i <> j -> nth_error (assign l i x) j = nth_error l j.
Proof.
  revert i j; induction l as [|h t IH]; intros [|i] [|j] H; simpl; auto.
  congruence.
Qed.

Lemma resize_length (n : nat) (v : list R) : length (resize n v) = n.
Proof.
  unfold resize. rewrite length_app, length_firstn, repeat_length. lia.
Qed.

(** ** Comparisons of doubles *)

Lemma Rgtb_true_iff (a b : R) : Rgtb a b = true <-> a > b.
Proof.
  unfold Rgtb. destruct (Rgt_dec a b); split; intros H;
    auto; discriminate || contradiction.
Qed.

Lemma Rgtb_false_iff (a b : R) : Rgtb a b = false <-> a <= b.
Proof.
  unfold Rgtb. destruct (Rgt_dec a b) as [H|H]; unfold Rgt in H; split; intros H';
    auto; try discriminate; lra.
Qed.

Lemma Rltb_true_iff (a b : R) : Rltb a b = true <-> a < b.
Proof.
  unfold Rltb. destruct (Rlt_dec a b); split; intros H;
    auto; discriminate || contradiction.
Qed.

Lemma Rltb_false_iff (a b : R) : Rltb a b = false <-> b <= a.
Proof.
  unfold Rltb. destruct (Rlt_dec a b) as [H|H]; split; intros H';
    auto; try discriminate; lra.
Qed.

Lemma Reqb_true_iff (a b : R) : Reqb a b = true <-> a = b.
Proof.
  unfold Reqb. destruct (Req_dec_T a b); split; intros H;
    congruence || discriminate.
Qed.

(** ** Math channel *)

Section MathChannelFacts.

Import MathChannel.

#[local] Set Default Proof Using "Type".

Variable g : MathChannelGenerator.

Lemma fill_length (mode : MathMode) (resultData ch1 ch2 : list R) :
  length (fill mode resultData ch1 ch2) = length resultData.
Proof.
  revert ch1 ch2; induction resultData as [|x rest IH]; intros [|a t1] [|b t2];
    simpl; auto.
Qed.

Lemma fill_nth (mode : MathMode) (resultData ch1 ch2 : list R) (i : nat) :
  (length resultData <= Nat.min (length ch1) (length ch2))%nat ->
  (i < length resultData)%nat ->
  nth i (fill mode resultData ch1 ch2) 0
  = combine_samples mode (nth i ch1 0) (nth i ch2 0).
Proof.
  revert ch1 ch2 i; induction resultData as [|x rest IH];
    intros [|a t1] [|b t2] i Hlen Hi; simpl in *; try lia.
  destruct i as [|i]; [reflexivity|].
  apply IH; lia.
Qed.

Lemma modifyData_count (result : PPresult) (channel : nat)
    (f : DataChannel -> DataChannel) :
  channelCount (modifyData result channel f) = channelCount result.
Proof.
  unfold modifyData, channelCount.
  destruct (data result channel); simpl; auto using assign_length.
Qed.

Lemma modifyData_same (result : PPresult) (channel : nat)
    (f : DataChannel -> DataChannel) (channelData : DataChannel) :
  data result channel = Some channelData ->
  data (modifyData result channel f) channel = Some (f channelData).
Proof.
  intros H. unfold modifyData. rewrite H. unfold data in *; simpl.
  apply assign_same. apply nth_error_Some. congruence.
Qed.

Lemma modifyData_other (result : PPresult) (channel other : nat)
    (f : DataChannel -> DataChannel) :
  channel <> other ->
  data (modifyData result channel f) other = data result other.
Proof.
  intros H. unfold modifyData.
  destruct (data result channel) eqn:E; auto.
  unfold data; simpl. now apply assign_other.
Qed.

Lemma step_count (result : PPresult) (channel : nat) :
  channelCount (step g result channel) = channelCount result.
Proof.
  unfold step.
  destruct (negb (voltage_used (scope g) channel)
            && negb (spectrum_used (scope g) channel)); auto.
  destruct (data result 0); auto.
  destruct (data result 1); auto using modifyData_count.
Qed.

Lemma step_other (result : PPresult) (channel other : nat) :
  channel <> other -> data (step g result channel) other = data result other.
Proof.
  intros H. unfold step.
  destruct (negb (voltage_used (scope g) channel)
            && negb (spectrum_used (scope g) channel)); auto.
  destruct (data result 0); auto.
  destruct (data result 1); auto using modifyData_other.
Qed.

(** Channels outside the range a run of the loop visits keep their
    contents. *)
Lemma loop_other (n first : nat) (result : PPresult) (other : nat) :
  (other < first \/ first + n <= other)%nat ->
  data (fold_left (step g) (seq first n) result) other = data result other.
Proof.
  revert first result; induction n as [|n IH]; intros first result H; simpl; auto.
  rewrite IH by lia. apply step_other. lia.
Qed.

(** A visited, enabled channel holds the combination of the channels 0
    and 1 the loop started with, as long as these two are not among the
    visited ones. *)
Lemma loop_visited (n first : nat) (result : PPresult)
    (d0 d1 channelData : DataChannel) (channel : nat) :
  (2 <= first)%nat ->
  data result 0 = Some d0 ->
  data result 1 = Some d1 ->
  data result channel = Some channelData ->
  (first <= channel < first + n)%nat ->
  voltage_used (scope g) channel = true \/ spectrum_used (scope g) channel = true ->
  data (fold_left (step g) (seq first n) result) channel
  = Some (derive g d0 d1 channelData).
Proof.
  revert first result; induction n as [|n IH];
    intros first result Hfirst H0 H1 Hc Hrange Hused; simpl; [lia|].
  destruct (Nat.eq_dec channel first) as [->|Hne].
  - rewrite loop_other by lia.
    unfold step.
    replace (negb (voltage_used (scope g) first)
             && negb (spectrum_used (scope g) first)) with false
      by (destruct Hused as [-> | ->]; simpl; auto using andb_false_r).
    rewrite H0, H1. now apply modifyData_same.
  - apply IH; try lia; auto.
    + rewrite step_other by lia; exact H0.
    + rewrite step_other by lia; exact H1.
    + rewrite step_other by lia; exact Hc.
Qed.

(** C4.  With channels 0 and 1 physical and both holding samples,
    [process] succeeds, and every enabled derived channel then has the
    length of the shorter input, carries the sampling interval of
    channel 0, and holds at each index [i] below that length the sum
    [ch1[i] + ch2[i]] in mode ADD_CH1_CH2, the difference
    [ch1[i] - ch2[i]] in mode SUB_CH2_FROM_CH1 and the difference
    [ch2[i] - ch1[i]] in mode SUB_CH1_FROM_CH2. *)
Theorem math_process_combines (result : PPresult) (d0 d1 : DataChannel)
    (channel : nat) :
  (2 <= physicalChannels g)%nat ->
  data result 0 = Some d0 ->
  data result 1 = Some d1 ->
  sample (voltage d0) <> [] ->
  sample (voltage d1) <> [] ->
  (physicalChannels g <= channel < channelCount result)%nat ->
  voltage_used (scope g) channel = true \/ spectrum_used (scope g) channel = true ->
  exists (result' : PPresult) (output : DataChannel),
    process g result = Some result'
    /\ data result' channel = Some output
    /\ length (sample (voltage output))
       = Nat.min (length (sample (voltage d0))) (length (sample (voltage d1)))
    /\ (forall i : nat,
          (i < Nat.min (length (sample (voltage d0)))
                       (length (sample (voltage d1))))%nat ->
          nth i (sample (voltage output)) 0
          = match getMathMode (scope g) (physicalChannels g) with
            | ADD_CH1_CH2 =>
                nth i (sample (voltage d0)) 0 + nth i (sample (voltage d1)) 0
            | SUB_CH2_FROM_CH1 =>
                nth i (sample (voltage d0)) 0 - nth i (sample (voltage d1)) 0
            | SUB_CH1_FROM_CH2 =>
                nth i (sample (voltage d1)) 0 - nth i (sample (voltage d0)) 0
            end)
    /\ interval (voltage output) = interval (voltage d0).
Proof.
  intros Hphys H0 H1 Hs0 Hs1 Hrange Hused.
  destruct (nth_error (analyzedData result) channel) as [channelData|] eqn:Hc.
  2:{ apply nth_error_None in Hc. unfold channelCount in Hrange. lia. }
  exists (fold_left (step g)
            (seq (physicalChannels g) (channelCount result - physicalChannels g))
            result).
  exists (derive g d0 d1 channelData).
  split.
  - unfold process. rewrite H0, H1.
    destruct (sample (voltage d0)); [congruence|].
    destruct (sample (voltage d1)); [congruence|].
    reflexivity.
  - split; [apply loop_visited; auto; lia|].
    unfold derive; simpl.
    rewrite fill_length, resize_length.
    repeat split; auto.
    intros i Hi. rewrite fill_nth by (rewrite ?resize_length; auto).
    unfold combine_samples.
    destruct (getMathMode (scope g) (physicalChannels g)); reflexivity.
Qed.

End MathChannelFacts.

(** A list of three reals is determined by its three entries. *)
Lemma three_samples (l : list R) (x0 x1 x2 : R) :
  length l = 3%nat ->
  nth 0 l 0 = x0 -> nth 1 l 0 = x1 -> nth 2 l 0 = x2 ->
  l = [x0; x1; x2].
Proof.
  destruct l as [|y0 [|y1 [|y2 [|y3 rest]]]]; simpl; try discriminate.
  intros _ -> -> ->. reflexivity.
Qed.

(** The mismatched-length example in each of the three modes: channel 0
    holds 1, 2, 3, 4, 5 and channel 1 holds 4, 5, 6; the derived channel 2
    gets three samples: the sums 5, 7, 9, the differences -3, -3, -3 of
    channel 0 minus channel 1, or the differences 3, 3, 3 of channel 1
    minus channel 0. *)
Lemma math_process_combines_witness :
  (exists (result' : PPresult) (output : DataChannel),
     MathChannel.process (MathChannel.mkGenerator 2 (scopeWithMode ADD_CH1_CH2))
       sampleResult = Some result'
     /\ data result' 2 = Some output
     /\ sample (voltage output) = [5; 7; 9]
     /\ interval (voltage output) = 1)
  /\ (exists (result' : PPresult) (output : DataChannel),
        MathChannel.process
          (MathChannel.mkGenerator 2 (scopeWithMode SUB_CH2_FROM_CH1))
          sampleResult = Some result'
        /\ data result' 2 = Some output
        /\ sample (voltage output) = [-3; -3; -3]
        /\ interval (voltage output) = 1)
  /\ (exists (result' : PPresult) (output : DataChannel),
        MathChannel.process
          (MathChannel.mkGenerator 2 (scopeWithMode SUB_CH1_FROM_CH2))
          sampleResult = Some result'
        /\ data result' 2 = Some output
        /\ sample (voltage output) = [3; 3; 3]
        /\ interval (voltage output) = 1).
Proof.
  assert (Hrun : forall mode : MathMode,
            exists (result' : PPresult) (output : DataChannel),
              MathChannel.process
                (MathChannel.mkGenerator 2 (scopeWithMode mode)) sampleResult
              = Some result'
              /\ data result' 2 = Some output
              /\ length (sample (voltage output)) = 3%nat
              /\ (forall i : nat, (i < 3)%nat ->
                    nth i (sample (voltage output)) 0
                    = match mode with
                      | ADD_CH1_CH2 => nth i [1; 2; 3; 4; 5] 0 + nth i [4; 5; 6] 0
                      | SUB_CH2_FROM_CH1 =>
                          nth i [1; 2; 3; 4; 5] 0 - nth i [4; 5; 6] 0
                      | SUB_CH1_FROM_CH2 =>
                          nth i [4; 5; 6] 0 - nth i [1; 2; 3; 4; 5] 0
                      end)
              /\ interval (voltage output) = 1).
  { intros mode.
    apply (math_process_combines (MathChannel.mkGenerator 2 (scopeWithMode mode))
             sampleResult (sampleChannel [1; 2; 3; 4; 5] 1)
             (sampleChannel [4; 5; 6] 1) 2);
      simpl; try reflexivity; try discriminate; try lia; auto. }
  repeat split.
  - destruct (Hrun ADD_CH1_CH2) as (result' & output & Hp & Hd & Hl & Hn & Hi).
    exists result', output. repeat split; auto.
    apply three_samples; [exact Hl|rewrite Hn by lia; simpl; lra..].
  - destruct (Hrun SUB_CH2_FROM_CH1) as (result' & output & Hp & Hd & Hl & Hn & Hi).
    exists result', output. repeat split; auto.
    apply three_samples; [exact Hl|rewrite Hn by lia; simpl; lra..].
  - destruct (Hrun SUB_CH1_FROM_CH2) as (result' & output & Hp & Hd & Hl & Hn & Hi).
    exists result', output. repeat split; auto.
    apply three_samples; [exact Hl|rewrite Hn by lia; simpl; lra..].
Defined.

(** ** Window coefficients *)

Import Spectrum.

Lemma recordLength_small (sampleCount : nat) :
  (Z.of_nat sampleCount < 2 ^ 32)%Z ->
  Spectrum.recordLength sampleCount = Z.of_nat sampleCount.
Proof.
  intros H. unfold Spectrum.recordLength, uint. apply Z.mod_small. lia.
Qed.

Lemma windowEnd_small (sampleCount : nat) :
  (1 <= sampleCount)%nat ->
  (Z.of_nat sampleCount < 2 ^ 32)%Z ->
  Spectrum.windowEnd sampleCount = (Z.of_nat sampleCount - 1)%Z.
Proof.
  intros H1 H. unfold Spectrum.windowEnd.
  rewrite recordLength_small by exact H. unfold uint. apply Z.mod_small. lia.
Qed.

Lemma computeWindow_nth (w : Spectrum.WindowFunction) (sampleCount p : nat) :
  (p < sampleCount)%nat ->
  (Z.of_nat sampleCount < 2 ^ 32)%Z ->
  nth p (Spectrum.computeWindow w sampleCount) 0
  = Spectrum.windowValue w (Z.of_nat sampleCount) (Z.of_nat sampleCount - 1)
      (Z.of_nat p).
Proof.
  intros Hp Hmax. unfold Spectrum.computeWindow.
  rewrite windowEnd_small, recordLength_small by lia.
  rewrite Nat2Z.id.
  set (f := fun windowPosition : nat =>
              Spectrum.windowValue w (Z.of_nat sampleCount)
                (Z.of_nat sampleCount - 1) (Z.of_nat windowPosition)).
  rewrite (nth_indep (map f (seq 0 sampleCount)) 0 (f 0%nat))
    by (now rewrite length_map, length_seq).
  rewrite map_nth, seq_nth by exact Hp. reflexivity.
Qed.

Ltac plain_decimals :=
  try replace 1.0 with 1 by lra;
  try replace 2.0 with 2 by lra;
  try replace 4.0 with 4 by lra.

Ltac window_angles e :=
  repeat match goal with
  | |- context [?k * PI * IZR 0 / IZR e] =>
      replace (k * PI * IZR 0 / IZR e) with (k * PI * 0) by (field; assumption)
  | |- context [?k * PI * IZR e / IZR e] =>
      replace (k * PI * IZR e / IZR e) with (k * PI * 1) by (field; assumption)
  | |- context [PI * IZR 0 / IZR e] =>
      replace (PI * IZR 0 / IZR e) with (PI * 0) by (field; assumption)
  | |- context [PI * IZR e / IZR e] =>
      replace (PI * IZR e / IZR e) with (PI * 1) by (field; assumption)
  | |- context [2 * IZR 0 / IZR e] =>
      replace (2 * IZR 0 / IZR e) with (2 * 0) by (field; assumption)
  | |- context [2 * IZR e / IZR e] =>
      replace (2 * IZR e / IZR e) with (2 * 1) by (field; assumption)
  end.

(** The windows whose expression is evaluated in [double] throughout
    take the values of their shape at [x = 0] and [x = 1] at the two
    ends. *)
Lemma window_ends (w : Spectrum.WindowFunction) (n e : Z) :
  integerArithmeticWindow w = false ->
  (1 <= e)%Z ->
  Spectrum.windowValue w n e 0 = spec_windowShape w (IZR n) 0
  /\ Spectrum.windowValue w n e e = spec_windowShape w (IZR n) 1.
Proof.
  intros Hw He.
  assert (Hne : IZR e <> 0) by (apply not_0_IZR; lia).
  destruct w; try discriminate Hw;
    unfold Spectrum.windowValue, spec_windowShape; cbv zeta;
    rewrite ?Z.div_0_l, ?Z.div_same by lia;
    split; plain_decimals; window_angles e; try reflexivity; try lra.
Qed.

(** For the windows computed in [double] throughout, and 2 <= N < 2^32
    samples, the first and the last coefficient are the values of the
    window shape at [x = 0] and [x = 1]. *)
Lemma window_boundary (w : Spectrum.WindowFunction) (sampleCount : nat) :
  integerArithmeticWindow w = false ->
  (2 <= sampleCount)%nat ->
  (Z.of_nat sampleCount < 2 ^ 32)%Z ->
  nth 0 (Spectrum.computeWindow w sampleCount) 0
  = spec_windowShape w (INR sampleCount) 0
  /\ nth (sampleCount - 1) (Spectrum.computeWindow w sampleCount) 0
     = spec_windowShape w (INR sampleCount) 1.
Proof.
  intros Hw H2 Hmax.
  rewrite !computeWindow_nth by lia.
  rewrite INR_IZR_INZ.
  replace (Z.of_nat (sampleCount - 1)) with (Z.of_nat sampleCount - 1)%Z by lia.
  apply window_ends; [exact Hw|lia].
Qed.

(** The boundary values the specification quotes. *)
Lemma spec_windowShape_ends (n : R) :
  spec_windowShape Spectrum.HAMMING n 0 = 0.08
  /\ spec_windowShape Spectrum.HAMMING n 1 = 0.08
  /\ spec_windowShape Spectrum.RECTANGULAR n 0 = 1
  /\ spec_windowShape Spectrum.RECTANGULAR n 1 = 1
  /\ spec_windowShape Spectrum.GAUSS n 0 = exp (-3.125)
  /\ spec_windowShape Spectrum.GAUSS n 1 = exp (-3.125).
Proof.
  unfold spec_windowShape.
  replace (2 * PI * 0) with 0 by lra.
  replace (2 * PI * 1) with (2 * PI) by lra.
  rewrite cos_0, cos_2PI.
  repeat split; try lra; f_equal; simpl; lra.
Qed.

(** The rectangular window is 1 at every position. *)
Lemma rectangular_window (sampleCount p : nat) :
  (p < sampleCount)%nat ->
  (Z.of_nat sampleCount < 2 ^ 32)%Z ->
  nth p (Spectrum.computeWindow Spectrum.RECTANGULAR sampleCount) 0 = 1.
Proof.
  intros Hp Hmax. rewrite computeWindow_nth by assumption. simpl. lra.
Qed.

(** C3 at a failing input.  For the Gauss window and three samples the
    difference [windowPosition - windowEnd / 2] at position 0 is the
    [unsigned int] value 0 - 1 = 4294967295, so the first coefficient is
    [exp (-0.5 * (4294967295 / 0.4)^2)], far below the boundary value
    [exp (-3.125)] of the window shape. *)
Theorem gauss_window_start :
  nth 0 (Spectrum.computeWindow Spectrum.GAUSS 3) 0
  = exp (-0.5 * pow (4294967295 / 0.4) 2)
  /\ spec_windowShape Spectrum.GAUSS 3 0 = exp (-3.125)
  /\ nth 0 (Spectrum.computeWindow Spectrum.GAUSS 3) 0
     < spec_windowShape Spectrum.GAUSS 3 0.
Proof.
  assert (Hcode : nth 0 (Spectrum.computeWindow Spectrum.GAUSS 3) 0
                  = exp (-0.5 * pow (4294967295 / 0.4) 2)).
  { rewrite computeWindow_nth by (try lia; reflexivity).
    unfold Spectrum.windowValue. cbv zeta.
    change (uint (Z.of_nat 0 - (Z.of_nat 3 - 1) / 2)) with 4294967295%Z.
    change (Z.of_nat 3 - 1)%Z with 2%Z.
    f_equal. f_equal. f_equal. lra. }
  destruct (spec_windowShape_ends 3) as (_ & _ & _ & _ & Hspec & _).
  split; [exact Hcode|]. split; [exact Hspec|].
  rewrite Hcode, Hspec. apply exp_increasing.
  replace (4294967295 / 0.4) with 10737418237.5 by lra.
  simpl. lra.
Qed.

(** [0 - h] on [unsigned int]. *)
Lemma uint_negative (h : Z) :
  (1 <= h < 2 ^ 32)%Z -> uint (0 - h) = (2 ^ 32 - h)%Z.
Proof.
  intros Hh. unfold uint.
  rewrite <- (Z_mod_plus_full (0 - h) 1 (2 ^ 32)).
  replace (0 - h + 1 * 2 ^ 32)%Z with (2 ^ 32 - h)%Z by lia.
  apply Z.mod_small. lia.
Qed.

(** The same happens for every sample count from 3 on: the first Gauss
    coefficient lies below the boundary value of the window shape. *)
Lemma gauss_window_wraps (sampleCount : nat) :
  (3 <= sampleCount)%nat ->
  (Z.of_nat sampleCount < 2 ^ 32)%Z ->
  nth 0 (computeWindow GAUSS sampleCount) 0 < spec_windowShape GAUSS (INR sampleCount) 0.
Proof.
  intros H3 Hmax.
  destruct (spec_windowShape_ends (INR sampleCount)) as (_ & _ & _ & _ & Hspec & _).
  rewrite Hspec, computeWindow_nth by lia.
  unfold windowValue. cbv zeta.
  set (e := (Z.of_nat sampleCount - 1)%Z).
  set (h := (e / 2)%Z).
  assert (He : (2 <= e < 2 ^ 32)%Z) by (unfold e; lia).
  assert (Hh : (1 <= h)%Z /\ (2 * h <= e)%Z).
  { unfold h. split.
    - apply Z.div_le_lower_bound; lia.
    - apply Z.mul_div_le; lia. }
  change (Z.of_nat 0) with 0%Z.
  rewrite uint_negative by lia.
  apply exp_increasing.
  assert (HeR : 2 <= IZR e < 4294967296).
  { split; [apply IZR_le; lia|apply IZR_lt; lia]. }
  assert (HhR : 2 * IZR h <= IZR e).
  { rewrite <- mult_IZR. apply IZR_le. lia. }
  rewrite minus_IZR. change (IZR (2 ^ 32)) with 4294967296.
  set (x := (4294967296 - IZR h) / (0.4 * IZR e / 2)).
  assert (Hx : 2.5 < x).
  { unfold x. apply (Rmult_lt_reg_r (0.4 * IZR e / 2)); [lra|].
    unfold Rdiv at 2. rewrite Rmult_assoc, Rinv_l by lra. lra. }
  simpl. nra.
Qed.

(** The Bartlett window divides [windowEnd] by 2 on integers: with four
    samples its first coefficient is -1/3, not the 0 of its shape. *)
Lemma bartlett_window_start :
  nth 0 (Spectrum.computeWindow Spectrum.BARTLETT 4) 0 = - (1 / 3)
  /\ spec_windowShape Spectrum.BARTLETT 4 0 = 0.
Proof.
  split.
  - rewrite computeWindow_nth by (try lia; reflexivity).
    unfold Spectrum.windowValue. cbv zeta.
    change (Z.of_nat 4 - 1)%Z with 3%Z. change (3 / 2)%Z with 1%Z.
    change (IZR (Z.of_nat 0)) with 0.
    rewrite Rabs_left by lra. lra.
  - unfold spec_windowShape. rewrite Rabs_left by lra. lra.
Qed.

(** ** Statistics *)

Lemma accumulate_total (f : R -> R) (v : list R) (start : R) :
  fold_left (fun acc x => acc + f x) v start = start + total (map f v).
Proof.
  revert start; induction v as [|x rest IH]; intros start; simpl.
  - lra.
  - rewrite IH. lra.
Qed.

Lemma mean_arithmeticMean (v : list R) : mean v = arithmeticMean v.
Proof.
  unfold mean, arithmeticMean.
  rewrite (accumulate_total (fun x => x)), map_id. f_equal. lra.
Qed.

Lemma meanSquare_arithmeticMean (v : list R) (m : R) :
  meanSquare v m = arithmeticMean (map (fun x => (x - m) * (x - m)) v).
Proof.
  unfold meanSquare, arithmeticMean. cbv zeta.
  rewrite (accumulate_total (fun x => (x - m) * (x - m))), length_map.
  f_equal. lra.
Qed.

Lemma total_squares_nonneg (v : list R) (m : R) :
  0 <= total (map (fun x => (x - m) * (x - m)) v).
Proof.
  induction v as [|x rest IH]; simpl; [lra|].
  pose proof (Rle_0_sqr (x - m)) as Hsq. unfold Rsqr in Hsq. lra.
Qed.

Lemma meanSquare_nonneg (v : list R) (m : R) : v <> [] -> 0 <= meanSquare v m.
Proof.
  intros Hv. rewrite meanSquare_arithmeticMean. unfold arithmeticMean.
  rewrite length_map.
  apply Rmult_le_pos; [apply total_squares_nonneg|].
  apply Rlt_le, Rinv_0_lt_compat, lt_0_INR.
  destruct v; [congruence|simpl; lia].
Qed.

(** ** Length of the truncated spectrum *)

Lemma spectrumLength_small (sampleCount : nat) :
  (2 <= sampleCount)%nat ->
  (Z.of_nat sampleCount < 2 ^ 32)%Z ->
  spectrumLength sampleCount = (sampleCount / 2 - 1)%nat.
Proof.
  intros H2 Hmax. unfold spectrumLength, dftLength, uint.
  assert (H1 : (1 <= Z.of_nat sampleCount / 2 < 2 ^ 32)%Z).
  { split.
    - apply Z.div_le_lower_bound; lia.
    - apply Z.div_lt_upper_bound; lia. }
  rewrite (Z.mod_small (Z.of_nat sampleCount / 2)) by lia.
  rewrite Z.mod_small by lia.
  rewrite Z2Nat.inj_sub by lia.
  change 2%Z with (Z.of_nat 2).
  rewrite <- Nat2Z.inj_div, Nat2Z.id. reflexivity.
Qed.

(** ** Peak search in the correlation *)

Lemma qualifies_next (correlation : list R) (k : nat) :
  qualifies correlation (S k) <->
  nth (S k) correlation 0 > 0
  /\ nth (S k) correlation 0 > runningMinimum correlation k.
Proof. unfold qualifies. simpl. rewrite Nat.sub_0_r. tauto. Qed.

(** The position after [k] takes over as the peak. *)
Lemma scanned_new_peak (correlation : list R) (k : nat) (mn pk : R) (pos : nat) :
  scanned correlation k (mkPeakSearch mn pk pos) ->
  nth (S k) correlation 0 > pk ->
  nth (S k) correlation 0 > mn ->
  scanned correlation (S k) (mkPeakSearch mn (nth (S k) correlation 0) (S k)).
Proof.
  unfold scanned; simpl. intros (Hmin & Hpk & Hpeak) Hgp Hgm.
  set (c := nth (S k) correlation 0) in *. unfold Rgt in *.
  assert (Hq : qualifies correlation (S k)).
  { apply qualifies_next. fold c. unfold Rgt. split; lra. }
  split; [rewrite <- Hmin, Rmin_left; lra|].
  split; [lra|]. right.
  split; [lia|]. split; [reflexivity|]. split; [exact Hq|].
  intros q Hrange Hqq.
  destruct (Nat.eq_dec q (S k)) as [->|Hne]; [fold c; split; [lra|lia]|].
  destruct Hpeak as [(_ & _ & Hnone) | (_ & _ & _ & Hle)].
  - exfalso. apply (Hnone q); [lia|exact Hqq].
  - destruct (Hle q) as [Hq1 _]; auto; try lia. split; lra.
Qed.

(** The position after [k] leaves the peak as it is. *)
Lemma scanned_same_peak (correlation : list R) (k : nat) (mn pk : R) (pos : nat) :
  scanned correlation k (mkPeakSearch mn pk pos) ->
  nth (S k) correlation 0 <= pk \/ nth (S k) correlation 0 <= mn ->
  scanned correlation (S k)
    (mkPeakSearch (Rmin mn (nth (S k) correlation 0)) pk pos).
Proof.
  unfold scanned; simpl. intros (Hmin & Hpk & Hpeak) Hno.
  set (c := nth (S k) correlation 0) in *.
  split; [now rewrite Hmin|]. split; [exact Hpk|].
  destruct Hpeak as [(Hp0 & Hpk0 & Hnone) | (Hr & Hpv & Hpos & Hle)].
  - left. split; [exact Hp0|]. split; [exact Hpk0|].
    intros q Hq Hqq.
    destruct (Nat.eq_dec q (S k)) as [->|Hne]; [|apply (Hnone q); auto; lia].
    apply qualifies_next in Hqq. fold c in Hqq. unfold Rgt in *. lra.
  - right. split; [lia|]. split; [exact Hpv|]. split; [exact Hpos|].
    intros q Hq Hqq.
    destruct (Nat.eq_dec q (S k)) as [->|Hne]; [|apply (Hle q); auto; lia].
    apply qualifies_next in Hqq. fold c in Hqq |- *. unfold Rgt in *.
    split; [lra|lia].
Qed.

Lemma scanStep_scanned (correlation : list R) (k : nat) (st : PeakSearch) :
  scanned correlation k st ->
  scanned correlation (S k) (scanStep correlation st (S k)).
Proof.
  destruct st as [mn pk pos]. intros Hst. unfold scanStep; simpl.
  set (c := nth (S k) correlation 0).
  destruct (Rgtb c pk) eqn:Egp; [destruct (Rgtb c mn) eqn:Egm|]; simpl.
  - apply Rgtb_true_iff in Egp, Egm.
    now apply (scanned_new_peak correlation k mn pk pos).
  - apply Rgtb_false_iff in Egm.
    destruct (Rltb c mn) eqn:Elt.
    + apply Rltb_true_iff in Elt.
      replace c with (Rmin mn c) at 1 by (rewrite Rmin_right; lra).
      apply scanned_same_peak; auto.
    + apply Rltb_false_iff in Elt.
      replace mn with (Rmin mn c) at 1 by (rewrite Rmin_left; lra).
      apply scanned_same_peak; auto.
  - apply Rgtb_false_iff in Egp.
    destruct (Rltb c mn) eqn:Elt.
    + apply Rltb_true_iff in Elt.
      replace c with (Rmin mn c) at 1 by (rewrite Rmin_right; lra).
      apply scanned_same_peak; auto.
    + apply Rltb_false_iff in Elt.
      replace mn with (Rmin mn c) at 1 by (rewrite Rmin_left; lra).
      apply scanned_same_peak; auto.
Qed.

Lemma scan_scanned (correlation : list R) (k : nat) :
  scanned correlation k
    (fold_left (scanStep correlation) (seq 1 k)
       (mkPeakSearch (nth 0 correlation 0) 0 0)).
Proof.
  induction k as [|k IH].
  - simpl. unfold scanned; simpl. split; [reflexivity|]. split; [lra|].
    left. repeat split. intros q Hq. lia.
  - rewrite seq_S, fold_left_app. simpl. now apply scanStep_scanned.
Qed.

(** The peak search returns the first index of the greatest candidate
    value, and 0 when there is no candidate. *)
Lemma scanCorrelation_first_greatest (correlation : list R) (sampleCount : nat) :
  let p := peakPosition (scanCorrelation correlation sampleCount) in
  (p = 0%nat /\ forall q : nat, ~ candidate correlation sampleCount q)
  \/ (candidate correlation sampleCount p
      /\ forall q : nat, candidate correlation sampleCount q ->
           nth q correlation 0 <= nth p correlation 0
           /\ (nth q correlation 0 = nth p correlation 0 -> (p <= q)%nat)).
Proof.
  cbv zeta. unfold scanCorrelation.
  pose proof (scan_scanned correlation (sampleCount / 2 - 1)) as Hs.
  destruct (fold_left _ _ _) as [mn pk pos]. unfold scanned in Hs.
  cbn [minimumCorrelation peakCorrelation peakPosition] in *.
  destruct Hs as (_ & _ & [(Hp0 & _ & Hnone) | (Hr & Hpv & Hq & Hle)]).
  - left. split; [exact Hp0|]. intros q [Hrange Hqq].
    apply (Hnone q); [lia|exact Hqq].
  - right. split; [split; [lia|exact Hq]|].
    intros q [Hrange Hqq]. rewrite <- Hpv. apply Hle; [lia|exact Hqq].
Qed.

(** The recorded position never leaves the scanned range. *)
Lemma scan_position_bound (correlation : list R) (sampleCount : nat) :
  (Spectrum.peakPosition (Spectrum.scanCorrelation correlation sampleCount)
   <= sampleCount / 2)%nat.
Proof.
  destruct (scanCorrelation_first_greatest correlation sampleCount)
    as [[H0 _] | [[Hrange _] _]]; lia.
Qed.

Lemma scanStep_peak (correlation : list R) (mn pk : R) (pos position : nat) :
  nth position correlation 0 > pk ->
  nth position correlation 0 > mn ->
  Spectrum.scanStep correlation (Spectrum.mkPeakSearch mn pk pos) position
  = Spectrum.mkPeakSearch mn (nth position correlation 0) position.
Proof.
  intros Hp Hm. unfold Spectrum.scanStep; simpl.
  apply Rgtb_true_iff in Hp, Hm. now rewrite Hp, Hm.
Qed.

Lemma scanStep_minimum (correlation : list R) (mn pk : R) (pos position : nat) :
  nth position correlation 0 < mn ->
  Spectrum.scanStep correlation (Spectrum.mkPeakSearch mn pk pos) position
  = Spectrum.mkPeakSearch (nth position correlation 0) pk pos.
Proof.
  intros Hm. unfold Spectrum.scanStep; simpl.
  assert (Hg : Rgtb (nth position correlation 0) mn = false)
    by (apply Rgtb_false_iff; lra).
  apply Rltb_true_iff in Hm. rewrite Hg, Hm, andb_false_r. reflexivity.
Qed.

Lemma scanStep_skip (correlation : list R) (mn pk : R) (pos position : nat) :
  nth position correlation 0 <= pk ->
  mn <= nth position correlation 0 ->
  Spectrum.scanStep correlation (Spectrum.mkPeakSearch mn pk pos) position
  = Spectrum.mkPeakSearch mn pk pos.
Proof.
  intros Hp Hm. unfold Spectrum.scanStep; simpl.
  apply Rgtb_false_iff in Hp. apply Rltb_false_iff in Hm.
  now rewrite Hp, Hm.
Qed.

(** The scan of a correlation with two peaks, the later one higher. *)
Lemma scan_two_peaks :
  Spectrum.peakPosition
    (Spectrum.scanCorrelation [5; 1; 2; 1; 3; 1; 3; 1; 2; 1] 10) = 4%nat.
Proof.
  unfold Spectrum.scanCorrelation.
  change (10 / 2 - 1)%nat with 4%nat.
  cbn [seq fold_left].
  change (nth 0 [5; 1; 2; 1; 3; 1; 3; 1; 2; 1] 0) with 5.
  rewrite scanStep_minimum by (cbn [nth]; lra).
  rewrite scanStep_peak by (cbn [nth]; lra).
  rewrite scanStep_skip by (cbn [nth]; lra).
  rewrite scanStep_peak by (cbn [nth]; lra).
  reflexivity.
Qed.

(** ** One channel of the spectrum generator *)

Section SpectrumFacts.

#[local] Set Default Proof Using "Type".

Variable r2hc : list R -> nat -> R.
Variable hc2r : list R -> nat -> R.
Variable log10 : R -> R.

Lemma execute_length (plan : list R -> nat -> R) (n : nat) (input : list R) :
  length (execute plan n input) = n.
Proof. unfold execute. now rewrite length_map, length_seq. Qed.

Lemma dBLoop_length (offset offsetLimit : R) (bins : list R)
    (position : nat) (peakSpectrum : R) (peakPos : nat) :
  length (fst (dBLoop log10 offset offsetLimit bins position peakSpectrum peakPos))
  = length bins.
Proof.
  revert position peakSpectrum peakPos.
  induction bins as [|bin rest IH]; intros position peakSpectrum peakPos; simpl; auto.
  destruct (Rltb peakSpectrum (dBValue log10 offset offsetLimit bin)).
  - specialize (IH (S position) (dBValue log10 offset offsetLimit bin) position).
    destruct (dBLoop log10 offset offsetLimit rest (S position) _ position).
    simpl in *. now rewrite IH.
  - specialize (IH (S position) peakSpectrum peakPos).
    destruct (dBLoop log10 offset offsetLimit rest (S position) peakSpectrum peakPos).
    simpl in *. now rewrite IH.
Qed.

Lemma dBLoop_converted (offset offsetLimit : R) (bins : list R)
    (position : nat) (peakSpectrum : R) (peakPos : nat) :
  fst (dBLoop log10 offset offsetLimit bins position peakSpectrum peakPos)
  = map (dBValue log10 offset offsetLimit) bins.
Proof.
  revert position peakSpectrum peakPos.
  induction bins as [|bin rest IH]; intros position peakSpectrum peakPos; simpl; auto.
  destruct (Rltb peakSpectrum (dBValue log10 offset offsetLimit bin)).
  - specialize (IH (S position) (dBValue log10 offset offsetLimit bin) position).
    destruct (dBLoop log10 offset offsetLimit rest (S position) _ position).
    simpl in *. now rewrite IH.
  - specialize (IH (S position) peakSpectrum peakPos).
    destruct (dBLoop log10 offset offsetLimit rest (S position) peakSpectrum peakPos).
    simpl in *. now rewrite IH.
Qed.


Lemma dBValue_kept (offset offsetLimit bin : R) :
  offsetLimit <= 20 * log10 (Rabs bin) + offset ->
  dBValue log10 offset offsetLimit bin = 20 * log10 (Rabs bin) + offset.
Proof.
  intros H. unfold dBValue, Rgtb. cbv zeta.
  destruct (Rgt_dec offsetLimit (20 * log10 (Rabs bin) + offset)); [|reflexivity].
  unfold Rgt in *. lra.
Qed.

(** A bin that is not above the running peak leaves [peakPos] alone. *)
Lemma dBLoop_no_peak (offset offsetLimit bin : R) (rest : list R)
    (position : nat) (peakSpectrum : R) (peakPos : nat) :
  dBValue log10 offset offsetLimit bin <= peakSpectrum ->
  snd (dBLoop log10 offset offsetLimit (bin :: rest) position peakSpectrum peakPos)
  = snd (dBLoop log10 offset offsetLimit rest (S position) peakSpectrum peakPos).
Proof.
  intros H. apply Rltb_false_iff in H. simpl. rewrite H.
  destruct (dBLoop log10 offset offsetLimit rest (S position) peakSpectrum peakPos).
  reflexivity.
Qed.

(** What the conversion loop returns as [peakPos]: the index it started
    with when no converted value exceeds the start value, and otherwise
    the first index of the greatest converted value. *)
Lemma dBLoop_peak (offset offsetLimit : R) (bins : list R)
    (position : nat) (peakSpectrum : R) (peakPos : nat) :
  let values := map (dBValue log10 offset offsetLimit) bins in
  let final :=
    snd (dBLoop log10 offset offsetLimit bins position peakSpectrum peakPos) in
  (final = peakPos
   /\ forall j : nat, (j < length values)%nat -> nth j values 0 <= peakSpectrum)
  \/ (exists i : nat,
        (i < length values)%nat
        /\ final = (position + i)%nat
        /\ nth i values 0 > peakSpectrum
        /\ (forall j : nat, (j < length values)%nat ->
              nth j values 0 <= nth i values 0)
        /\ (forall j : nat, (j < i)%nat -> nth j values 0 < nth i values 0)).
Proof.
  cbv zeta. revert position peakSpectrum peakPos.
  induction bins as [|bin rest IH]; intros position peakSpectrum peakPos.
  - left. simpl. split; [reflexivity|]. intros j Hj. lia.
  - cbn [map length dBLoop].
    set (value := dBValue log10 offset offsetLimit bin).
    set (values := map (dBValue log10 offset offsetLimit) rest) in *.
    destruct (Rltb peakSpectrum value) eqn:Ecmp.
    + apply Rltb_true_iff in Ecmp.
      specialize (IH (S position) value position).
      destruct (dBLoop log10 offset offsetLimit rest (S position) value position)
        as [converted final].
      cbn [snd] in *. right.
      destruct IH as [[Hfinal Hall] | (i & Hi & Hfinal & Hgt & Hmax & Hfirst)].
      * exists 0%nat. cbn [nth].
        split; [lia|]. split; [lia|]. split; [unfold Rgt; lra|].
        split; [|intros j Hj; lia].
        intros [|j] Hj; [lra|]. apply Hall. lia.
      * exists (S i). cbn [nth]. unfold Rgt in *.
        split; [lia|]. split; [lia|]. split; [lra|].
        split.
        -- intros [|j] Hj; [lra|]. apply Hmax. lia.
        -- intros [|j] Hj; [lra|]. apply Hfirst. lia.
    + apply Rltb_false_iff in Ecmp.
      specialize (IH (S position) peakSpectrum peakPos).
      destruct (dBLoop log10 offset offsetLimit rest (S position) peakSpectrum peakPos)
        as [converted final].
      cbn [snd] in *.
      destruct IH as [[Hfinal Hall] | (i & Hi & Hfinal & Hgt & Hmax & Hfirst)].
      * left. split; [exact Hfinal|].
        intros [|j] Hj; cbn [nth]; [lra|]. apply Hall. lia.
      * right. exists (S i). cbn [nth]. unfold Rgt in *.
        split; [lia|]. split; [lia|]. split; [lra|].
        split.
        -- intros [|j] Hj; [lra|]. apply Hmax. lia.
        -- intros [|j] Hj; [lra|]. apply Hfirst. lia.
Qed.

Lemma finalSpectrum_length (pp : DsoSettingsPostProcessing) (sampleCount : nat)
    (used : bool) (frequency0 : R) (bins : list R) :
  length (fst (finalSpectrum log10 pp sampleCount used frequency0 bins))
  = length bins.
Proof.
  unfold finalSpectrum.
  destruct (used || Reqb 0 frequency0); auto using dBLoop_length.
Qed.

(** The record [processChannel] leaves for a channel with samples. *)
Lemma processChannel_samples (g : SpectrumGenerator) (channel : nat)
    (channelData : DataChannel) :
  sample (voltage channelData) <> [] ->
  let v := sample (voltage channelData) in
  let frequency0 :=
    autocorrelationFrequency (interval (voltage channelData))
      (peakPosition (scanCorrelation (correlation r2hc hc2r g v) (length v))) in
  let spectrumInterval := 1.0 / interval (voltage channelData) / INR (length v) in
  let final :=
    finalSpectrum log10 (postprocessing g) (length v)
      (spectrum_used (scope g) channel) frequency0 (truncatedSpectrum r2hc g v) in
  processChannel r2hc hc2r log10 g channel channelData
  = (updateWindow g (length v),
     mkDataChannel (voltage channelData)
       (mkSampleValues (fst final) spectrumInterval)
       (if Nat.eqb (snd final) 0 then frequency0
        else spectrumInterval * INR (snd final))
       (mean v) (sqrt (meanSquare v (mean v)))
       (sqrt (mean v * mean v + meanSquare v (mean v)))
       (valid channelData)).
Proof.
  intros Hv; cbv zeta. unfold processChannel.
  destruct (sample (voltage channelData)) as [|x rest] eqn:E; [congruence|].
  cbn [length Nat.eqb].
  destruct (finalSpectrum log10 _ _ _ _ _); reflexivity.
Qed.


(** C7.  The window is recomputed exactly when no buffer exists or one
    of the cached tags differs from the request; on a hit the generator,
    buffer included, is left as it is, on a miss the new buffer is
    [computeWindow] of the requested kind and sample count, which is the
    same array for every generator state. *)
Theorem window_cache_policy (g : SpectrumGenerator) (sampleCount : nat) :
  (windowCacheMiss g sampleCount = true <->
     lastWindowBuffer g = None
     \/ lastWindow g <> spectrumWindow (postprocessing g)
     \/ lastRecordLength g <> Z.of_nat sampleCount)
  /\ (windowCacheMiss g sampleCount = false ->
        updateWindow g sampleCount = g)
  /\ (windowCacheMiss g sampleCount = true ->
        lastWindowBuffer (updateWindow g sampleCount)
        = Some (computeWindow (spectrumWindow (postprocessing g)) sampleCount)
        /\ lastWindow (updateWindow g sampleCount)
           = spectrumWindow (postprocessing g)
        /\ lastRecordLength (updateWindow g sampleCount)
           = recordLength sampleCount)
  /\ (forall g' : SpectrumGenerator,
        spectrumWindow (postprocessing g') = spectrumWindow (postprocessing g) ->
        windowCacheMiss g sampleCount = true ->
        windowCacheMiss g' sampleCount = true ->
        lastWindowBuffer (updateWindow g' sampleCount)
        = lastWindowBuffer (updateWindow g sampleCount))
  /\ (forall (channel : nat) (channelData : DataChannel),
        length (sample (voltage channelData)) = sampleCount ->
        sampleCount <> 0%nat ->
        fst (processChannel r2hc hc2r log10 g channel channelData)
        = updateWindow g sampleCount).
Proof.
  split; [|split; [|split; [|split]]].
  - unfold windowCacheMiss.
    rewrite !orb_true_iff, negb_true_iff, Z.eqb_neq.
    destruct (lastWindowBuffer g);
      destruct (WindowFunction_eq_dec (lastWindow g)
                  (spectrumWindow (postprocessing g))); split; intros H;
      intuition (try discriminate; try congruence).
  - intros H. unfold updateWindow. now rewrite H.
  - intros H. unfold updateWindow. rewrite H. simpl. auto.
  - intros g' Hw H H'. unfold updateWindow. rewrite H, H'. simpl. now rewrite Hw.
  - intros channel channelData Hlen Hne.
    rewrite processChannel_samples.
    + simpl. now rewrite Hlen.
    + intros E. rewrite E in Hlen. simpl in Hlen. congruence.
Qed.




(** C1, as the code has it.  For a channel with samples the peak search
    scans the correlation indices 1 .. N/2-1 and returns the first index
    that holds the greatest candidate value (a value that is positive
    and above the least value before it), or 0 when no index is a
    candidate: a later greater value replaces an earlier peak, an equal
    one does not.  The frequency before the spectral override is
    [1 / (voltage.interval * peakPosition)] when [peakPosition > 100],
    and 0 otherwise. *)
Theorem autocorrelation_peak (g : SpectrumGenerator) (channel : nat)
    (channelData : DataChannel) :
  sample (voltage channelData) <> [] ->
  let v := sample (voltage channelData) in
  let corr := correlation r2hc hc2r g v in
  let p := peakPosition (scanCorrelation corr (length v)) in
  let frequency0 := autocorrelationFrequency (interval (voltage channelData)) p in
  ((p = 0%nat /\ forall q : nat, ~ candidate corr (length v) q)
   \/ (candidate corr (length v) p
       /\ forall q : nat, candidate corr (length v) q ->
            nth q corr 0 <= nth p corr 0
            /\ (nth q corr 0 = nth p corr 0 -> (p <= q)%nat)))
  /\ ((100 < p)%nat ->
        frequency0 = 1 / (interval (voltage channelData) * INR p))
  /\ ((p <= 100)%nat -> frequency0 = 0)
  /\ (snd (finalSpectrum log10 (postprocessing g) (length v)
             (spectrum_used (scope g) channel) frequency0
             (truncatedSpectrum r2hc g v)) = 0%nat ->
        frequency (snd (processChannel r2hc hc2r log10 g channel channelData))
        = frequency0).
Proof.
  intros Hv. cbv zeta.
  split; [apply scanCorrelation_first_greatest|].
  unfold autocorrelationFrequency.
  split; [|split].
  - intros Hp. apply Nat.ltb_lt in Hp. rewrite Hp. f_equal. lra.
  - intros Hp. apply Nat.ltb_ge in Hp. now rewrite Hp.
  - intros H0. rewrite processChannel_samples by exact Hv. simpl.
    unfold autocorrelationFrequency. now rewrite H0.
Qed.

(** When the conversion loop leaves a non-zero [peakPos], the frequency
    of the channel is [spectrum.interval * peakPos]. *)
Lemma spectral_override (g : SpectrumGenerator) (channel : nat)
    (channelData : DataChannel) :
  sample (voltage channelData) <> [] ->
  let v := sample (voltage channelData) in
  let frequency0 :=
    autocorrelationFrequency (interval (voltage channelData))
      (peakPosition (scanCorrelation (correlation r2hc hc2r g v) (length v))) in
  let peakPos :=
    snd (finalSpectrum log10 (postprocessing g) (length v)
           (spectrum_used (scope g) channel) frequency0
           (truncatedSpectrum r2hc g v)) in
  let analyzed := snd (processChannel r2hc hc2r log10 g channel channelData) in
  peakPos <> 0%nat ->
  frequency analyzed = interval (spectrum analyzed) * INR peakPos.
Proof.
  intros Hv. cbv zeta. intros Hpeak.
  rewrite processChannel_samples by exact Hv. simpl.
  apply Nat.eqb_neq in Hpeak. now rewrite Hpeak.
Qed.

End SpectrumFacts.

(** ** Concrete runs *)

(** *** A correlation with two peaks *)

(** The inverse transform of the ten-sample channel delivers the
    two-peak sequence. *)
Lemma tenSamples_correlation :
  correlation zeroTransform (tableTransform twoPeaks) sampleGenerator
    (sample (voltage tenSamples))
  = twoPeaks.
Proof.
  unfold correlation, execute.
  change (length (sample (voltage tenSamples))) with 10%nat.
  cbn [seq map]. unfold tableTransform. reflexivity.
Qed.

(** C1 as stated fails.  The correlation of the ten-sample channel is
    [5, 1, 2, 1, 3, 1, 3, 1, 2, 1]: index 2 is the first local maximum
    above the running minimum (its neighbours are strictly smaller,
    index 1 is below its left neighbour), yet the search records
    index 4, where the later and higher peak is. *)
Lemma first_local_maximum_not_recorded :
  let v := sample (voltage tenSamples) in
  let corr :=
    correlation zeroTransform (tableTransform twoPeaks) sampleGenerator v in
  spec_firstLocalMaximum corr (length v) 2
  /\ peakPosition (scanCorrelation corr (length v)) = 4%nat
  /\ ~ spec_firstLocalMaximum corr (length v)
        (peakPosition (scanCorrelation corr (length v))).
Proof.
  cbv zeta. rewrite tenSamples_correlation.
  change (length (sample (voltage tenSamples))) with 10%nat.
  unfold twoPeaks.
  assert (Hlocal : spec_localMaximum [5; 1; 2; 1; 3; 1; 3; 1; 2; 1] 10 2).
  { unfold spec_localMaximum.
    change (10 / 2)%nat with 5%nat. cbn [Nat.sub Nat.add nth runningMinimum].
    split; [lia|]. split; [lra|]. split; [lra|].
    unfold Rmin. destruct (Rle_dec 5 1); unfold Rgt; lra. }
  split; [|split].
  - split; [exact Hlocal|].
    intros q Hq (Hrange & Hleft & _).
    assert (Hq1 : q = 1%nat) by lia. subst q.
    cbn [Nat.sub nth] in Hleft. lra.
  - exact scan_two_peaks.
  - rewrite scan_two_peaks. intros [_ Hfirst].
    apply (Hfirst 2%nat); [lia|exact Hlocal].
Qed.

Lemma autocorrelation_peak_witness :
  let v := sample (voltage tenSamples) in
  let corr :=
    Spectrum.correlation zeroTransform (tableTransform twoPeaks) sampleGenerator v in
  let p := Spectrum.peakPosition (Spectrum.scanCorrelation corr (length v)) in
  let frequency0 :=
    Spectrum.autocorrelationFrequency (interval (voltage tenSamples)) p in
  ((p = 0%nat /\ forall q : nat, ~ candidate corr (length v) q)
   \/ (candidate corr (length v) p
       /\ forall q : nat, candidate corr (length v) q ->
            nth q corr 0 <= nth p corr 0
            /\ (nth q corr 0 = nth p corr 0 -> (p <= q)%nat)))
  /\ ((100 < p)%nat ->
        frequency0 = 1 / (interval (voltage tenSamples) * INR p))
  /\ ((p <= 100)%nat -> frequency0 = 0)
  /\ (snd (Spectrum.finalSpectrum decimalLog
             (Spectrum.postprocessing sampleGenerator) (length v)
             (spectrum_used (Spectrum.scope sampleGenerator) 0) frequency0
             (Spectrum.truncatedSpectrum zeroTransform sampleGenerator v))
       = 0%nat ->
        frequency (snd (Spectrum.processChannel zeroTransform
                          (tableTransform twoPeaks) decimalLog
                          sampleGenerator 0 tenSamples))
        = frequency0).
Proof.
  apply (autocorrelation_peak zeroTransform (tableTransform twoPeaks) decimalLog
           sampleGenerator 0 tenSamples).
  discriminate.
Defined.

(** *** A weak signal under the triangular window *)

Lemma ln_10_pos : 0 < ln 10.
Proof. rewrite <- ln_1. apply ln_increasing; lra. Qed.

Lemma decimalLog_inverse_power (n : nat) : decimalLog (/ 10 ^ n) = - INR n.
Proof.
  unfold decimalLog.
  rewrite ln_Rinv by (apply pow_lt; lra).
  rewrite ln_pow by lra.
  pose proof ln_10_pos. field. lra.
Qed.

Lemma decimalLog_3_bounds : 0 < decimalLog 3 < 1.
Proof.
  unfold decimalLog. pose proof ln_10_pos as H10.
  assert (H3 : 0 < ln 3) by (rewrite <- ln_1; apply ln_increasing; lra).
  assert (H310 : ln 3 < ln 10) by (apply ln_increasing; lra).
  split.
  - apply Rdiv_lt_0_compat; assumption.
  - apply (Rmult_lt_reg_r (ln 10)); [assumption|].
    unfold Rdiv. rewrite Rmult_assoc, Rinv_l by lra. lra.
Qed.

Lemma decimalLog_increasing (x y : R) :
  0 < x -> x < y -> decimalLog x < decimalLog y.
Proof.
  intros Hx Hxy. unfold decimalLog, Rdiv.
  apply Rmult_lt_compat_r; [apply Rinv_0_lt_compat, ln_10_pos|].
  now apply ln_increasing.
Qed.

Lemma weak_mean : Spectrum.mean [-0.0015; 0; 0.0015; 0; 0; 0] = 0.
Proof. unfold Spectrum.mean. cbn [fold_left length INR]. lra. Qed.

Lemma triangular_six :
  nth 0 (Spectrum.computeWindow Spectrum.TRIANGULAR 6) 0 = 1 / 6
  /\ nth 2 (Spectrum.computeWindow Spectrum.TRIANGULAR 6) 0 = 5 / 6.
Proof.
  rewrite !computeWindow_nth by (try lia; reflexivity).
  unfold Spectrum.windowValue. cbv zeta.
  change (Z.of_nat 6 - 1)%Z with 5%Z. change (Z.of_nat 6) with 6%Z.
  change (6 / 2)%Z with 3%Z.
  change (IZR (Z.of_nat 0)) with 0. change (IZR (Z.of_nat 2)) with 2.
  split.
  - rewrite Rabs_left by lra. lra.
  - rewrite Rabs_left by lra. lra.
Qed.

Lemma weak_windowed :
  Spectrum.windowedValues triangularGenerator [-0.0015; 0; 0.0015; 0; 0; 0]
  = [-0.00025; 0; 0.00125; 0; 0; 0].
Proof.
  unfold Spectrum.windowedValues. rewrite weak_mean.
  replace (Spectrum.windowBuffer (Spectrum.updateWindow triangularGenerator
            (length [-0.0015; 0; 0.0015; 0; 0; 0])))
    with (Spectrum.computeWindow Spectrum.TRIANGULAR 6) by reflexivity.
  unfold Spectrum.applyWindow. cbn [length seq map].
  destruct triangular_six as [H0 H2]. rewrite H0, H2.
  cbn [nth].
  do 5 (f_equal; [lra|]). f_equal. lra.
Qed.

Lemma angle_0 (j n : R) : 2 * PI * j * 0 / n = 0.
Proof. unfold Rdiv. ring. Qed.

Lemma weak_bin0 : halfComplex [-0.00025; 0; 0.00125; 0; 0; 0] 0 = 0.001.
Proof.
  unfold halfComplex. cbv zeta. cbn [length Nat.leb seq map total fold_right nth].
  change (INR 0) with 0. rewrite !angle_0, cos_0. lra.
Qed.

Lemma weak_bin1 : halfComplex [-0.00025; 0; 0.00125; 0; 0; 0] 1 = -0.000875.
Proof.
  unfold halfComplex. cbv zeta.
  change (Nat.leb 1 (length [-0.00025; 0; 0.00125; 0; 0; 0] / 2)) with true.
  cbn [length seq map total fold_right nth].
  replace (2 * PI * INR 0 * INR 1 / INR 6) with 0 by (simpl; field).
  replace (2 * PI * INR 2 * INR 1 / INR 6) with (2 * (PI / 3)) by (simpl; field).
  rewrite cos_0, cos_2PI3. lra.
Qed.

Lemma weak_bin5 :
  halfComplex [-0.00025; 0; 0.00125; 0; 0; 0] 5 = - (0.00125 * (sqrt 3 / 2)).
Proof.
  unfold halfComplex. cbv zeta.
  change (Nat.leb 5 (length [-0.00025; 0; 0.00125; 0; 0; 0] / 2)) with false.
  cbn [length seq map total fold_right nth Nat.sub].
  replace (2 * PI * INR 0 * INR 1 / INR 6) with 0 by (simpl; field).
  replace (2 * PI * INR 2 * INR 1 / INR 6) with (2 * (PI / 3)) by (simpl; field).
  rewrite sin_0, sin_2PI3. lra.
Qed.

Lemma magnitudes_fst (sampleCount : nat) (spec windowedValues : list R) :
  fst (Spectrum.magnitudes sampleCount spec windowedValues)
  = fst (fold_left (Spectrum.magnitudeStep (Spectrum.correctionFactor sampleCount))
           (seq 1 (Z.to_nat (Spectrum.dftLength sampleCount) - 1))
           (spec,
            assign windowedValues 0
              (nth 0 spec 0 * nth 0 spec 0 * Spectrum.correctionFactor sampleCount))).
Proof.
  unfold Spectrum.magnitudes. cbv zeta.
  destruct (fold_left _ _ _). reflexivity.
Qed.

Lemma weak_truncated :
  Spectrum.truncatedSpectrum halfComplex triangularGenerator
    [-0.0015; 0; 0.0015; 0; 0; 0]
  = [0.001; sqrt (0.000875 * 0.000875 + 0.00125 * 0.00125 * (3 / 4))].
Proof.
  unfold Spectrum.truncatedSpectrum, Spectrum.transformed.
  rewrite magnitudes_fst, weak_windowed.
  cbn [length].
  change (Spectrum.spectrumLength 6) with 2%nat.
  change (Z.to_nat (Spectrum.dftLength 6) - 1)%nat with 2%nat.
  unfold Spectrum.execute.
  cbn [length seq map fold_left Spectrum.magnitudeStep assign nth Nat.sub fst].
  unfold resize. cbn [firstn length Nat.sub repeat app].
  rewrite weak_bin0, weak_bin1, weak_bin5.
  f_equal. f_equal. f_equal.
  assert (H3 : sqrt 3 * sqrt 3 = 3) by (apply sqrt_sqrt; lra).
  nra.
Qed.

Lemma weak_magnitude_bounds :
  0.001 < sqrt (0.000875 * 0.000875 + 0.00125 * 0.00125 * (3 / 4)) < 0.01.
Proof.
  split.
  - rewrite <- (sqrt_square 0.001) by lra. apply sqrt_lt_1; lra.
  - rewrite <- (sqrt_square 0.01) by lra. apply sqrt_lt_1; lra.
Qed.

(** C2 at a failing input.  Six samples [-1.5 mV, 0, 1.5 mV, 0, 0, 0]
    under the triangular window, reference level 20 and limit -60, with
    the spectrum in use.  The truncated spectrum is
    [0.001, sqrt 1.9375e-6]; its dB values are [dB0 < dB1], both
    negative.  The greatest dB value is at index 1, so the frequency
    should be [spectrum.interval * 1 = 1/6]; but [peakSpectrum] starts
    as the unconverted first bin 0.001, no dB value exceeds it,
    [peakPos] stays 0 and the frequency stays 0. *)
Theorem spectral_peak_missed (hc2r : list R -> nat -> R) :
  let analyzed :=
    snd (Spectrum.processChannel halfComplex hc2r decimalLog
           triangularGenerator 0 weakSignal) in
  exists dB0 dB1 : R,
    sample (spectrum analyzed) = [dB0; dB1]
    /\ dB0 < dB1
    /\ frequency analyzed = 0
    /\ interval (spectrum analyzed) * INR 1 = 1 / 6.
Proof.
  cbv zeta.
  rewrite processChannel_samples by discriminate.
  cbn [snd sample spectrum frequency interval voltage weakSignal sampleChannel].
  rewrite weak_truncated.
  set (b1 := sqrt (0.000875 * 0.000875 + 0.00125 * 0.00125 * (3 / 4))).
  pose proof weak_magnitude_bounds as [Hb1 Hb1']. fold b1 in Hb1, Hb1'.
  set (corr := Spectrum.correlation halfComplex hc2r triangularGenerator _).
  assert (Hf0 : Spectrum.autocorrelationFrequency 1
                  (Spectrum.peakPosition (Spectrum.scanCorrelation corr 6)) = 0).
  { unfold Spectrum.autocorrelationFrequency.
    pose proof (scan_position_bound corr 6) as Hp.
    change (6 / 2)%nat with 3%nat in Hp.
    replace (Nat.ltb 100 _) with false; [reflexivity|].
    symmetry. apply Nat.ltb_ge. lia. }
  cbn [length]. rewrite Hf0.
  unfold Spectrum.finalSpectrum.
  change (spectrum_used (Spectrum.scope triangularGenerator) 0) with true.
  cbn [orb hd].
  pose proof decimalLog_3_bounds as [HL0 HL1].
  assert (Hoffset :
    Spectrum.dBOffset decimalLog (Spectrum.postprocessing triangularGenerator) 6
    = 40 - 20 * decimalLog 3).
  { unfold Spectrum.dBOffset. change (Spectrum.dftLength 6) with 3%Z. simpl. lra. }
  assert (Hlimit :
    Spectrum.dBOffsetLimit (Spectrum.postprocessing triangularGenerator) = -80).
  { unfold Spectrum.dBOffsetLimit. simpl. lra. }
  rewrite Hoffset, Hlimit.
  assert (Hlog0 : decimalLog 0.001 = -3).
  { replace 0.001 with (/ 10 ^ 3) by (simpl; lra).
    rewrite decimalLog_inverse_power. simpl. lra. }
  assert (Hlog1 : decimalLog 0.01 = -2).
  { replace 0.01 with (/ 10 ^ 2) by (simpl; lra).
    rewrite decimalLog_inverse_power. simpl. lra. }
  assert (Hlogb : -3 < decimalLog b1 < -2).
  { rewrite <- Hlog0, <- Hlog1. split; apply decimalLog_increasing; lra. }
  assert (Hv0 : Spectrum.dBValue decimalLog (40 - 20 * decimalLog 3) (-80) 0.001
                = -20 - 20 * decimalLog 3).
  { rewrite dBValue_kept; rewrite Rabs_right, Hlog0 by lra; lra. }
  assert (Hv1 : Spectrum.dBValue decimalLog (40 - 20 * decimalLog 3) (-80) b1
                = 20 * decimalLog b1 + (40 - 20 * decimalLog 3)).
  { rewrite dBValue_kept; rewrite Rabs_right by lra; lra. }
  exists (-20 - 20 * decimalLog 3), (20 * decimalLog b1 + (40 - 20 * decimalLog 3)).
  assert (Hpeak :
    snd (Spectrum.dBLoop decimalLog (40 - 20 * decimalLog 3) (-80) [0.001; b1]
           0 0.001 0) = 0%nat).
  { rewrite dBLoop_no_peak by (rewrite Hv0; lra).
    rewrite dBLoop_no_peak by (rewrite Hv1; lra).
    reflexivity. }
  rewrite Hpeak, dBLoop_converted. cbn [map Nat.eqb]. rewrite Hv0, Hv1.
  split; [reflexivity|]. split; [lra|]. split; [reflexivity|].
  simpl. lra.
Qed.

(** *** A channel with a single sample *)

(** C10 at a failing input.  A channel with exactly one sample is not
    empty, so it takes the general path: the window is recomputed with
    [windowEnd = 0] as the divisor, [dftLength] is 0 and divides in
    [correctionFactor], and the spectrum is resized to the
    [unsigned int] value 0 - 1 = 4294967295. *)
Theorem single_sample_not_guarded
    (r2hc hc2r : list R -> nat -> R) (log10 : R -> R)
    (g : Spectrum.SpectrumGenerator) (channel : nat)
    (channelData : DataChannel) (x : R) :
  sample (voltage channelData) = [x] ->
  Spectrum.lastWindowBuffer g = None ->
  let w := Spectrum.spectrumWindow (Spectrum.postprocessing g) in
  let processed := Spectrum.processChannel r2hc hc2r log10 g channel channelData in
  Spectrum.windowEnd 1 = 0%Z
  /\ Spectrum.dftLength 1 = 0%Z
  /\ Spectrum.correctionFactor 1 = 1 / IZR 0 / IZR 0
  /\ Spectrum.lastWindowBuffer (fst processed)
     = Some [Spectrum.windowValue w 1 0 0]
  /\ Z.of_nat (length (sample (spectrum (snd processed)))) = 4294967295%Z.
Proof.
  intros Hv Hnone. cbv zeta.
  split; [reflexivity|]. split; [reflexivity|].
  split; [unfold Spectrum.correctionFactor;
          change (Spectrum.dftLength 1) with 0%Z; f_equal; f_equal; lra|].
  rewrite processChannel_samples by (rewrite Hv; discriminate).
  rewrite Hv. cbn [length fst snd sample spectrum].
  split.
  - unfold Spectrum.updateWindow, Spectrum.windowCacheMiss.
    rewrite Hnone. reflexivity.
  - rewrite finalSpectrum_length. unfold Spectrum.truncatedSpectrum.
    rewrite resize_length. unfold Spectrum.spectrumLength.
    change (uint (Spectrum.dftLength (length [x]) - 1)) with 4294967295%Z.
    apply Z2Nat.id. lia.
Qed.

Lemma single_sample_not_guarded_witness :
  let processed :=
    Spectrum.processChannel zeroTransform zeroTransform decimalLog
      sampleGenerator 0 (sampleChannel [1] 1) in
  Spectrum.windowEnd 1 = 0%Z
  /\ Spectrum.dftLength 1 = 0%Z
  /\ Spectrum.correctionFactor 1 = 1 / IZR 0 / IZR 0
  /\ Spectrum.lastWindowBuffer (fst processed)
     = Some [Spectrum.windowValue Spectrum.HAMMING 1 0 0]
  /\ Z.of_nat (length (sample (spectrum (snd processed)))) = 4294967295%Z.
Proof.
  apply (single_sample_not_guarded zeroTransform zeroTransform decimalLog
           sampleGenerator 0 (sampleChannel [1] 1) 1); reflexivity.
Defined.

(** *** A four-sample channel *)




Lemma window_cache_policy_witness :
  Spectrum.lastWindowBuffer (Spectrum.updateWindow sampleGenerator 4)
  = Some (Spectrum.computeWindow Spectrum.HAMMING 4)
  /\ Spectrum.updateWindow (Spectrum.updateWindow sampleGenerator 4) 4
     = Spectrum.updateWindow sampleGenerator 4.
Proof.
  split.
  - destruct (window_cache_policy zeroTransform zeroTransform decimalLog
                sampleGenerator 4) as (_ & _ & Hmiss & _).
    apply Hmiss. reflexivity.
  - destruct (window_cache_policy zeroTransform zeroTransform decimalLog
                (Spectrum.updateWindow sampleGenerator 4) 4) as (_ & Hhit & _).
    apply Hhit. reflexivity.
Defined.


(** * Further properties *)

(** ** Math channel: what [process] leaves alone *)

Section MathChannelFrame.

Import MathChannel.

#[local] Set Default Proof Using "Type".

Variable g : MathChannelGenerator.

Lemma sameAnalysis_refl (d : DataChannel) : sameAnalysis d d.
Proof. repeat split. Qed.

Lemma sameAnalysis_trans (d d' d'' : DataChannel) :
  sameAnalysis d d' -> sameAnalysis d' d'' -> sameAnalysis d d''.
Proof.
  unfold sameAnalysis.
  intros (H1 & H2 & H3 & H4 & H5 & H6) (K1 & K2 & K3 & K4 & K5 & K6).
  repeat split; congruence.
Qed.

Lemma derive_sameAnalysis (d0 d1 channelData : DataChannel) :
  sameAnalysis channelData (derive g d0 d1 channelData).
Proof. repeat split. Qed.

Lemma step_trigger (result : PPresult) (channel : nat) :
  softwareTriggerTriggered (step g result channel) = softwareTriggerTriggered result
  /\ skipSamples (step g result channel) = skipSamples result.
Proof.
  unfold step, modifyData.
  destruct (negb (voltage_used (scope g) channel)
            && negb (spectrum_used (scope g) channel)); auto.
  destruct (data result 0); auto.
  destruct (data result 1); auto.
  destruct (data result channel); auto.
Qed.

Lemma step_sameAnalysis (result : PPresult) (channel c : nat) (d : DataChannel) :
  data result c = Some d ->
  exists d' : DataChannel,
    data (step g result channel) c = Some d' /\ sameAnalysis d d'.
Proof.
  intros Hd.
  destruct (Nat.eq_dec channel c) as [->|Hne].
  - unfold step.
    destruct (negb (voltage_used (scope g) c) && negb (spectrum_used (scope g) c));
      [exists d; split; [exact Hd|apply sameAnalysis_refl]|].
    destruct (data result 0) as [d0|];
      [|exists d; split; [exact Hd|apply sameAnalysis_refl]].
    destruct (data result 1) as [d1|];
      [|exists d; split; [exact Hd|apply sameAnalysis_refl]].
    exists (derive g d0 d1 d). split.
    + now apply modifyData_same.
    + apply derive_sameAnalysis.
  - exists d. split; [|apply sameAnalysis_refl].
    now rewrite step_other.
Qed.

Lemma step_disabled (result : PPresult) (channel : nat) :
  voltage_used (scope g) channel = false ->
  spectrum_used (scope g) channel = false ->
  step g result channel = result.
Proof. intros Hv Hs. unfold step. now rewrite Hv, Hs. Qed.

Lemma loop_frame (channels : list nat) (result : PPresult) :
  let result' := fold_left (step g) channels result in
  channelCount result' = channelCount result
  /\ softwareTriggerTriggered result' = softwareTriggerTriggered result
  /\ skipSamples result' = skipSamples result
  /\ forall (c : nat) (d : DataChannel),
       data result c = Some d ->
       exists d' : DataChannel,
         data result' c = Some d'
         /\ sameAnalysis d d'
         /\ (~ In c channels
             \/ (voltage_used (scope g) c = false
                 /\ spectrum_used (scope g) c = false) ->
             d' = d).
Proof.
  cbv zeta. revert result.
  induction channels as [|channel rest IH]; intros result; cbn [fold_left].
  - repeat split. intros c d Hd. exists d.
    split; [exact Hd|]. split; [apply sameAnalysis_refl|reflexivity].
  - destruct (IH (step g result channel)) as (Hcount & Htrig & Hskip & Hdata).
    destruct (step_trigger result channel) as [Ht Hs].
    split; [rewrite Hcount; apply step_count|].
    split; [congruence|]. split; [congruence|].
    intros c d Hd.
    destruct (step_sameAnalysis result channel c d Hd) as (d1 & Hd1 & Hsame1).
    destruct (Hdata c d1 Hd1) as (d' & Hd' & Hsame & Hkeep).
    exists d'. split; [exact Hd'|].
    split; [eapply sameAnalysis_trans; eassumption|].
    intros Huntouched.
    assert (Hfirst : d1 = d).
    { destruct Huntouched as [Hnot | [Hv Hsp]].
      - rewrite step_other in Hd1 by (intros ->; apply Hnot; now left).
        congruence.
      - destruct (Nat.eq_dec channel c) as [->|Hne].
        + rewrite step_disabled in Hd1 by assumption. congruence.
        + rewrite step_other in Hd1 by assumption. congruence. }
    rewrite <- Hfirst. apply Hkeep.
    destruct Huntouched as [Hnot | Hdis]; [left|now right].
    intros Hin. apply Hnot. now right.
Qed.

(** Whatever the settings and the container, a successful [process]
    keeps the number of channels and the trigger bookkeeping, changes
    nothing but the voltage series of a channel, and leaves alone every
    channel below [physicalChannels] and every channel whose voltage and
    spectrum are both unused. *)
Theorem math_process_frame (result result' : PPresult) :
  process g result = Some result' ->
  channelCount result' = channelCount result
  /\ softwareTriggerTriggered result' = softwareTriggerTriggered result
  /\ skipSamples result' = skipSamples result
  /\ forall (c : nat) (d : DataChannel),
       data result c = Some d ->
       exists d' : DataChannel,
         data result' c = Some d'
         /\ sameAnalysis d d'
         /\ ((c < physicalChannels g)%nat
             \/ (voltage_used (scope g) c = false
                 /\ spectrum_used (scope g) c = false) ->
             d' = d).
Proof.
  unfold process.
  destruct (data result 0) as [d0|]; [|discriminate].
  destruct (data result 1) as [d1|]; [|discriminate].
  destruct (negb _).
  - intros [= <-]. repeat split. intros c d Hd. exists d.
    split; [exact Hd|]. split; [apply sameAnalysis_refl|reflexivity].
  - intros [= <-].
    destruct (loop_frame
                (seq (physicalChannels g) (channelCount result - physicalChannels g))
                result) as (Hcount & Htrig & Hskip & Hdata).
    split; [exact Hcount|]. split; [exact Htrig|]. split; [exact Hskip|].
    intros c d Hd. destruct (Hdata c d Hd) as (d' & Hd' & Hsame & Hkeep).
    exists d'. split; [exact Hd'|]. split; [exact Hsame|].
    intros [Hlow | Hdis]; apply Hkeep; [left|now right].
    rewrite in_seq. lia.
Qed.

End MathChannelFrame.

(** ** Math channel: running [process] again *)

Section MathChannelTwice.

Import MathChannel.

#[local] Set Default Proof Using "Type".

Variable g : MathChannelGenerator.

Lemma resize_same_length (v : list R) : resize (length v) v = v.
Proof.
  unfold resize. rewrite firstn_all, Nat.sub_diag. simpl. apply app_nil_r.
Qed.

(** Below the shorter input length the loop overwrites every element:
    what [resultData] held before does not matter. *)
Lemma fill_overwrites (mode : MathMode) (resultData resultData' ch1 ch2 : list R) :
  length resultData = length resultData' ->
  (length resultData <= Nat.min (length ch1) (length ch2))%nat ->
  fill mode resultData ch1 ch2 = fill mode resultData' ch1 ch2.
Proof.
  revert resultData' ch1 ch2.
  induction resultData as [|x rest IH];
    intros [|x' rest'] [|a t1] [|b t2] Hlen Hmin; simpl in *; try lia; auto.
  f_equal. apply IH; lia.
Qed.

Lemma derive_twice (d0 d1 channelData : DataChannel) :
  derive g d0 d1 (derive g d0 d1 channelData) = derive g d0 d1 channelData.
Proof.
  unfold derive. cbn [voltage sample spectrum frequency dc ac rms valid].
  f_equal. f_equal.
  apply fill_overwrites.
  - now rewrite !resize_length.
  - rewrite resize_length. lia.
Qed.

Lemma loop_trigger (channels : list nat) (result : PPresult) :
  softwareTriggerTriggered (fold_left (step g) channels result)
  = softwareTriggerTriggered result
  /\ skipSamples (fold_left (step g) channels result) = skipSamples result.
Proof.
  destruct (loop_frame g channels result) as (_ & Ht & Hs & _). now split.
Qed.

Lemma loop_count (channels : list nat) (result : PPresult) :
  channelCount (fold_left (step g) channels result) = channelCount result.
Proof. now destruct (loop_frame g channels result) as (H & _). Qed.

Lemma PPresult_ext (r r' : PPresult) :
  softwareTriggerTriggered r = softwareTriggerTriggered r' ->
  skipSamples r = skipSamples r' ->
  (forall c : nat, data r c = data r' c) ->
  r = r'.
Proof.
  destruct r, r'; unfold data; simpl. intros -> -> H.
  f_equal. now apply nth_error_ext.
Qed.

(** The channel loop run on its own result changes nothing more, as
    long as channels 0 and 1 are not among the derived ones. *)
Lemma loop_twice (result : PPresult) (d0 d1 : DataChannel) :
  (2 <= physicalChannels g)%nat ->
  data result 0 = Some d0 ->
  data result 1 = Some d1 ->
  let channels :=
    seq (physicalChannels g) (channelCount result - physicalChannels g) in
  fold_left (step g) channels (fold_left (step g) channels result)
  = fold_left (step g) channels result.
Proof.
  intros Hphys H0 H1. cbv zeta.
  set (n := (channelCount result - physicalChannels g)%nat).
  set (once := fold_left (step g) (seq (physicalChannels g) n) result).
  assert (H0' : data once 0 = Some d0)
    by (unfold once; rewrite loop_other by lia; exact H0).
  assert (H1' : data once 1 = Some d1)
    by (unfold once; rewrite loop_other by lia; exact H1).
  apply PPresult_ext.
  - apply loop_trigger.
  - apply loop_trigger.
  - intros c.
    destruct (Nat.lt_ge_cases c (physicalChannels g)) as [Hlow|Hge];
      [apply loop_other; lia|].
    destruct (Nat.lt_ge_cases c (physicalChannels g + n)) as [Hin|Hout];
      [|apply loop_other; lia].
    destruct (data result c) as [channelData|] eqn:Hc.
    2:{ apply nth_error_None in Hc. unfold channelCount in n. lia. }
    destruct (voltage_used (scope g) c) eqn:Hv;
      [|destruct (spectrum_used (scope g) c) eqn:Hs].
    + assert (Honce : data once c = Some (derive g d0 d1 channelData))
        by (apply loop_visited; auto; lia).
      rewrite Honce.
      rewrite (loop_visited g n (physicalChannels g) once d0 d1
                 (derive g d0 d1 channelData) c); auto; try lia.
      now rewrite derive_twice.
    + assert (Honce : data once c = Some (derive g d0 d1 channelData))
        by (apply loop_visited; auto; lia).
      rewrite Honce.
      rewrite (loop_visited g n (physicalChannels g) once d0 d1
                 (derive g d0 d1 channelData) c); auto; try lia.
      now rewrite derive_twice.
    + destruct (loop_frame g (seq (physicalChannels g) n) once)
        as (_ & _ & _ & Hdata).
      destruct (data once c) as [d|] eqn:Honce.
      * destruct (Hdata c d Honce) as (d' & Hd' & _ & Hkeep).
        rewrite Hd'. f_equal. apply Hkeep. right. now split.
      * apply nth_error_None in Honce. apply nth_error_None.
        fold (channelCount once) in Honce.
        fold (channelCount (fold_left (step g) (seq (physicalChannels g) n) once)).
        now rewrite loop_count.
Qed.

(** Running [process] again on its own result changes nothing: with
    channels 0 and 1 physical, the derived channels are a function of
    these two alone. *)
Theorem math_process_twice (result result' : PPresult) :
  (2 <= physicalChannels g)%nat ->
  process g result = Some result' ->
  process g result' = Some result'.
Proof.
  intros Hphys. unfold process.
  destruct (data result 0) as [d0|] eqn:H0; [|discriminate].
  destruct (data result 1) as [d1|] eqn:H1; [|discriminate].
  destruct (negb _) eqn:Hdata.
  - intros [= <-]. now rewrite H0, H1, Hdata.
  - intros [= <-].
    rewrite (loop_other g _ _ result 0) by lia.
    rewrite (loop_other g _ _ result 1) by lia.
    rewrite H0, H1, Hdata. f_equal.
    rewrite loop_count.
    apply (loop_twice result d0 d1); assumption.
Qed.

End MathChannelTwice.

(** ** Window coefficients: symmetry and range *)

Lemma cos_mirror (m : R) (k : nat) (p e : R) :
  m = 2 * INR k ->
  e <> 0 ->
  cos (m * PI * (e - p) / e) = cos (m * PI * p / e).
Proof.
  intros -> He.
  replace (2 * INR k * PI * (e - p) / e)
    with (- (2 * INR k * PI * p / e) + 2 * INR k * PI) by (field; exact He).
  now rewrite cos_period, cos_neg.
Qed.

Lemma sin_mirror (p e : R) :
  e <> 0 -> sin (PI * (e - p) / e) = sin (PI * p / e).
Proof.
  intros He.
  replace (PI * (e - p) / e) with (PI - PI * p / e) by (field; exact He).
  apply sin_PI_x.
Qed.

Lemma Reqb_opp (x : R) : Reqb (- x) 0 = Reqb x 0.
Proof.
  unfold Reqb. destruct (Req_dec_T (- x) 0), (Req_dec_T x 0); auto; lra.
Qed.

(** The quotient [windowPosition / windowEnd] of the Bartlett-Hann
    branch is 0 below [windowEnd] and 1 at [windowEnd]: its distance
    from 0.5 is always 0.5. *)
Lemma integer_quotient_distance (q e : Z) :
  (1 <= e)%Z -> (0 <= q <= e)%Z ->
  Rabs (IZR (q / e) - 0.5) = 0.5.
Proof.
  intros He Hq.
  destruct (Z.eq_dec q e) as [->|Hne].
  - rewrite Z.div_same by lia. rewrite Rabs_right; lra.
  - rewrite Z.div_small by lia. rewrite Rabs_left; lra.
Qed.

Ltac mirror_cos Hne :=
  rewrite ?(cos_mirror 2 1 _ _ ltac:(simpl; lra) Hne),
          ?(cos_mirror 4 2 _ _ ltac:(simpl; lra) Hne),
          ?(cos_mirror 6 3 _ _ ltac:(simpl; lra) Hne),
          ?(cos_mirror 8 4 _ _ ltac:(simpl; lra) Hne).

Lemma windowValue_mirror (w : WindowFunction) (n e p : Z) :
  w <> GAUSS ->
  (1 <= e)%Z -> (0 <= p <= e)%Z ->
  windowValue w n e (e - p) = windowValue w n e p.
Proof.
  intros Hw He Hp.
  assert (Hne : IZR e <> 0) by (apply not_0_IZR; lia).
  destruct w; try congruence; unfold windowValue; cbv zeta;
    rewrite ?minus_IZR; plain_decimals; mirror_cos Hne; try reflexivity.
  - (* COSINE *)
    now rewrite sin_mirror.
  - (* LANCZOS *)
    replace ((2 * (IZR e - IZR p) / IZR e - 1) * PI)
      with (- ((2 * IZR p / IZR e - 1) * PI)) by (field; exact Hne).
    rewrite Reqb_opp, sin_neg.
    destruct (Reqb ((2 * IZR p / IZR e - 1) * PI) 0) eqn:E; [reflexivity|].
    unfold Rdiv. rewrite Rinv_opp. ring.
  - (* BARTLETT *)
    f_equal. f_equal.
    replace (IZR e - IZR p - IZR e / 2) with (- (IZR p - IZR e / 2)) by lra.
    apply Rabs_Ropp.
  - (* TRIANGULAR *)
    f_equal. f_equal.
    replace (IZR e - IZR p - IZR e / 2) with (- (IZR p - IZR e / 2)) by lra.
    apply Rabs_Ropp.
  - (* BARTLETTHANN *)
    rewrite !integer_quotient_distance by lia. reflexivity.
Qed.

(** Every window but the Gauss window is symmetric: the coefficient at
    position [p] equals the one at [N - 1 - p]. *)
Theorem window_symmetric (w : WindowFunction) (sampleCount p : nat) :
  w <> GAUSS ->
  (p < sampleCount)%nat ->
  (Z.of_nat sampleCount < 2 ^ 32)%Z ->
  nth (sampleCount - 1 - p) (computeWindow w sampleCount) 0
  = nth p (computeWindow w sampleCount) 0.
Proof.
  intros Hw Hp Hmax.
  rewrite !computeWindow_nth by lia.
  destruct (Nat.eq_dec sampleCount 1) as [->|H1].
  - replace p with 0%nat by lia. reflexivity.
  - replace (Z.of_nat (sampleCount - 1 - p))
      with (Z.of_nat sampleCount - 1 - Z.of_nat p)%Z by lia.
    apply windowValue_mirror; [exact Hw|lia|lia].
Qed.

(** As coded, the Bartlett-Hann window is the Hann window scaled by
    0.76: the integer quotient makes its triangular term constant. *)
Theorem bartletthann_scaled_hann (sampleCount p : nat) :
  (2 <= sampleCount)%nat ->
  (p < sampleCount)%nat ->
  (Z.of_nat sampleCount < 2 ^ 32)%Z ->
  nth p (computeWindow BARTLETTHANN sampleCount) 0
  = 0.76 * nth p (computeWindow HANN sampleCount) 0.
Proof.
  intros H2 Hp Hmax.
  rewrite !computeWindow_nth by lia.
  unfold windowValue. cbv zeta.
  rewrite integer_quotient_distance by lia. lra.
Qed.

Lemma cos_double_angle (x : R) : cos (2 * x) = 2 * (cos x * cos x) - 1.
Proof.
  rewrite cos_2a. pose proof (sin2_cos2 x) as H. unfold Rsqr in H. lra.
Qed.

(** [sin x / x] lies between 0 and 1 for [0 < |x| <= PI]. *)
Lemma sinc_range (x : R) : x <> 0 -> - PI <= x <= PI -> 0 <= sin x / x <= 1.
Proof.
  assert (Hpos : forall y : R, 0 < y <= PI -> 0 <= sin y / y <= 1).
  { intros y [Hy0 Hy1].
    assert (Hs0 : 0 <= sin y) by (apply sin_ge_0; lra).
    assert (Hs1 : sin y < y) by (apply sin_lt_x; exact Hy0).
    split.
    - apply Rmult_le_pos; [exact Hs0|]. apply Rlt_le, Rinv_0_lt_compat, Hy0.
    - apply (Rmult_le_reg_r y); [exact Hy0|].
      unfold Rdiv. rewrite Rmult_assoc, Rinv_l by lra. lra. }
  intros Hx [Hlo Hhi].
  destruct (Rlt_le_dec 0 x) as [Hgt|Hle].
  - apply Hpos. lra.
  - replace (sin x / x) with (sin (- x) / - x)
      by (rewrite sin_neg; unfold Rdiv; rewrite Rinv_opp; ring).
    apply Hpos. lra.
Qed.

(** Read over the real numbers, the formulas of these windows take
    values between 0 and 1; rounding is not part of this statement. *)
Lemma windowValue_unit_range (w : WindowFunction) (n p : Z) :
  unitRangeWindow w = true ->
  (2 <= n)%Z -> (0 <= p <= n - 1)%Z ->
  0 <= windowValue w n (n - 1) p <= 1.
Proof.
  intros Hw Hn Hp.
  set (e := (n - 1)%Z) in *.
  assert (He : 1 <= IZR e) by (apply IZR_le; unfold e; lia).
  assert (Hp0 : 0 <= IZR p) by (apply IZR_le; lia).
  assert (Hpe : IZR p <= IZR e) by (apply IZR_le; lia).
  assert (Hfrac : 0 <= IZR p / IZR e <= 1).
  { split.
    - apply Rmult_le_pos; [exact Hp0|]. apply Rlt_le, Rinv_0_lt_compat. lra.
    - apply (Rmult_le_reg_r (IZR e)); [lra|].
      unfold Rdiv. rewrite Rmult_assoc, Rinv_l by lra. lra. }
  destruct w; try discriminate Hw; unfold windowValue; cbv zeta.
  - (* RECTANGULAR *) lra.
  - (* HAMMING *)
    pose proof (COS_bound (2.0 * PI * IZR p / IZR e)). lra.
  - (* HANN *)
    pose proof (COS_bound (2.0 * PI * IZR p / IZR e)). lra.
  - (* COSINE *)
    pose proof (SIN_bound (PI * IZR p / IZR e)) as Hs.
    pose proof PI_RGT_0 as Hpi.
    split; [|lra].
    apply sin_ge_0.
    + replace (PI * IZR p / IZR e) with (PI * (IZR p / IZR e))
        by (unfold Rdiv; ring).
      apply Rmult_le_pos; lra.
    + replace (PI * IZR p / IZR e) with (PI * (IZR p / IZR e))
        by (unfold Rdiv; ring).
      nra.
  - (* LANCZOS *)
    destruct (Reqb ((2.0 * IZR p / IZR e - 1.0) * PI) 0) eqn:E; [lra|].
    apply sinc_range.
    + intros H. apply Reqb_true_iff in H. congruence.
    + pose proof PI_RGT_0 as Hpi.
      replace (2.0 * IZR p / IZR e) with (2 * (IZR p / IZR e))
        by (unfold Rdiv; lra).
      split; nra.
  - (* TRIANGULAR *)
    assert (Hhalf : IZR e <= 2 * IZR (n / 2) <= IZR n).
    { rewrite <- mult_IZR. split; apply IZR_le.
      - pose proof (Z.mod_pos_bound n 2 ltac:(lia)).
        pose proof (Z.div_mod n 2 ltac:(lia)). unfold e. lia.
      - apply Z.mul_div_le. lia. }
    assert (Hn' : 2 <= IZR n) by (apply IZR_le; lia).
    assert (Habs : 0 <= Rabs (IZR p - IZR e / 2.0) <= IZR e / 2).
    { split; [apply Rabs_pos|]. apply Rabs_le. lra. }
    assert (Hinv : 0 < 2.0 / IZR n).
    { apply Rdiv_lt_0_compat; lra. }
    split.
    + apply Rmult_le_pos; lra.
    + apply (Rmult_le_reg_r (IZR n)); [lra|].
      set (x := IZR (n / 2) - Rabs (IZR p - IZR e / 2.0)) in *.
      replace (2.0 / IZR n * x * IZR n) with (2 * x * (/ IZR n * IZR n))
        by (unfold Rdiv; lra).
      rewrite Rinv_l by lra. unfold x. lra.
  - (* BARTLETTHANN *)
    rewrite integer_quotient_distance by (unfold e; lia).
    pose proof (COS_bound (2.0 * PI * IZR p / IZR e)). lra.
  - (* BLACKMAN *)
    replace (4.0 * PI * IZR p / IZR e) with (2 * (2.0 * PI * IZR p / IZR e))
      by (unfold Rdiv; lra).
    rewrite cos_double_angle.
    pose proof (COS_bound (2.0 * PI * IZR p / IZR e)) as [Hc0 Hc1].
    set (c := cos (2.0 * PI * IZR p / IZR e)) in *.
    split; nra.
Qed.

(** For the rectangular, Hamming, Hann, cosine, Lanczos, triangular,
    Bartlett-Hann and Blackman windows no coefficient exceeds 1 in
    magnitude. *)
Theorem window_magnitude (w : WindowFunction) (sampleCount p : nat) :
  unitRangeWindow w = true ->
  (2 <= sampleCount)%nat ->
  (p < sampleCount)%nat ->
  (Z.of_nat sampleCount < 2 ^ 32)%Z ->
  Rabs (nth p (computeWindow w sampleCount) 0) <= 1.
Proof.
  intros Hw H2 Hp Hmax.
  rewrite computeWindow_nth by lia.
  apply Rabs_le.
  pose proof (windowValue_unit_range w (Z.of_nat sampleCount) (Z.of_nat p) Hw
                ltac:(lia) ltac:(lia)).
  lra.
Qed.

(** ** Window cache *)

Lemma recordLength_range (sampleCount : nat) :
  (0 <= recordLength sampleCount < 2 ^ 32)%Z.
Proof. unfold recordLength, uint. apply Z.mod_pos_bound. lia. Qed.

Lemma recordLength_again (sampleCount : nat) :
  recordLength (Z.to_nat (recordLength sampleCount)) = recordLength sampleCount.
Proof.
  pose proof (recordLength_range sampleCount) as H.
  unfold recordLength at 1. rewrite Z2Nat.id by lia.
  unfold uint. apply Z.mod_small. exact H.
Qed.

Lemma computeWindow_recordLength (w : WindowFunction) (sampleCount : nat) :
  computeWindow w (Z.to_nat (recordLength sampleCount)) = computeWindow w sampleCount.
Proof.
  unfold computeWindow, windowEnd. now rewrite !recordLength_again.
Qed.

Lemma cache_hit (g : SpectrumGenerator) (sampleCount : nat) :
  windowCacheMiss g sampleCount = false ->
  (exists buffer : list R, lastWindowBuffer g = Some buffer)
  /\ lastWindow g = spectrumWindow (postprocessing g)
  /\ lastRecordLength g = Z.of_nat sampleCount.
Proof.
  unfold windowCacheMiss. intros H.
  apply orb_false_iff in H. destruct H as [H Hlen].
  apply orb_false_iff in H. destruct H as [Hbuf Hkind].
  apply negb_false_iff, Z.eqb_eq in Hlen.
  split; [|split].
  - destruct (lastWindowBuffer g) as [b|]; [now exists b|discriminate].
  - destruct (WindowFunction_eq_dec _ _); [assumption|discriminate].
  - exact Hlen.
Qed.

(** With a coherent cache the window applied to a channel is the one
    [computeWindow] gives for the configured kind and the sample count,
    whether the cache was hit or not. *)
Lemma window_in_use (g : SpectrumGenerator) (sampleCount : nat) :
  cacheCoherent g ->
  windowBuffer (updateWindow g sampleCount)
  = computeWindow (spectrumWindow (postprocessing g)) sampleCount.
Proof.
  intros Hc. unfold updateWindow.
  destruct (windowCacheMiss g sampleCount) eqn:Hmiss; [reflexivity|].
  destruct (cache_hit g sampleCount Hmiss) as ([b Hb] & Hkind & Hlen).
  unfold cacheCoherent in Hc. unfold windowBuffer. rewrite Hb in *.
  destruct Hc as [_ ->]. now rewrite Hkind, Hlen, Nat2Z.id.
Qed.

Lemma updateWindow_coherent (g : SpectrumGenerator) (sampleCount : nat) :
  cacheCoherent g -> cacheCoherent (updateWindow g sampleCount).
Proof.
  intros Hc. unfold updateWindow.
  destruct (windowCacheMiss g sampleCount); [|exact Hc].
  unfold cacheCoherent; cbn [lastWindowBuffer lastWindow lastRecordLength].
  split; [apply recordLength_range|].
  symmetry. apply computeWindow_recordLength.
Qed.

Lemma updateWindow_settings (g : SpectrumGenerator) (sampleCount : nat) :
  sameSettings g (updateWindow g sampleCount).
Proof.
  unfold updateWindow, sameSettings.
  destruct (windowCacheMiss g sampleCount); split; reflexivity.
Qed.

Section SpectrumCache.

#[local] Set Default Proof Using "Type".

Variable r2hc : list R -> nat -> R.
Variable hc2r : list R -> nat -> R.
Variable log10 : R -> R.

Lemma processChannel_generator (g : SpectrumGenerator) (channel : nat)
    (channelData : DataChannel) :
  fst (processChannel r2hc hc2r log10 g channel channelData)
  = if Nat.eqb (length (sample (voltage channelData))) 0 then g
    else updateWindow g (length (sample (voltage channelData))).
Proof.
  unfold processChannel.
  destruct (Nat.eqb (length (sample (voltage channelData))) 0); [reflexivity|].
  cbv zeta. destruct (finalSpectrum log10 _ _ _ _ _). reflexivity.
Qed.

Lemma processChannel_coherent (g : SpectrumGenerator) (channel : nat)
    (channelData : DataChannel) :
  cacheCoherent g ->
  cacheCoherent (fst (processChannel r2hc hc2r log10 g channel channelData))
  /\ sameSettings g (fst (processChannel r2hc hc2r log10 g channel channelData)).
Proof.
  intros Hc. rewrite processChannel_generator.
  destruct (Nat.eqb _ 0).
  - split; [exact Hc|]. split; reflexivity.
  - split; [now apply updateWindow_coherent|apply updateWindow_settings].
Qed.

Lemma windowedValues_coherent (g g' : SpectrumGenerator) (v : list R) :
  cacheCoherent g -> cacheCoherent g' -> sameSettings g g' ->
  windowedValues g v = windowedValues g' v.
Proof.
  intros Hc Hc' [_ Hpp]. unfold windowedValues.
  now rewrite !window_in_use, Hpp by assumption.
Qed.

(** The record a channel gets does not depend on what the cache holds,
    as long as it is coherent. *)
Lemma processChannel_transparent (g g' : SpectrumGenerator) (channel : nat)
    (channelData : DataChannel) :
  cacheCoherent g -> cacheCoherent g' -> sameSettings g g' ->
  snd (processChannel r2hc hc2r log10 g channel channelData)
  = snd (processChannel r2hc hc2r log10 g' channel channelData).
Proof.
  intros Hc Hc' Hs.
  destruct (sample (voltage channelData)) as [|x rest] eqn:Hv.
  - unfold processChannel. rewrite Hv. reflexivity.
  - rewrite !processChannel_samples by (rewrite Hv; discriminate).
    cbn [snd]. unfold correlation, truncatedSpectrum, transformed.
    rewrite (windowedValues_coherent g g') by assumption.
    destruct Hs as [-> ->]. reflexivity.
Qed.

Lemma processChannels_transparent (channels : list DataChannel)
    (g g' : SpectrumGenerator) (channel : nat) :
  cacheCoherent g -> cacheCoherent g' -> sameSettings g g' ->
  snd (processChannels r2hc hc2r log10 g channel channels)
  = snd (processChannels r2hc hc2r log10 g' channel channels)
  /\ cacheCoherent (fst (processChannels r2hc hc2r log10 g channel channels))
  /\ sameSettings g (fst (processChannels r2hc hc2r log10 g channel channels)).
Proof.
  revert g g' channel.
  induction channels as [|channelData rest IH]; intros g g' channel Hc Hc' Hs.
  - simpl. repeat split; auto.
  - cbn [processChannels].
    pose proof (processChannel_transparent g g' channel channelData Hc Hc' Hs) as Hd.
    destruct (processChannel_coherent g channel channelData Hc) as [Hc1 Hs1].
    destruct (processChannel_coherent g' channel channelData Hc') as [Hc1' Hs1'].
    destruct (processChannel r2hc hc2r log10 g channel channelData) as [g1 d].
    destruct (processChannel r2hc hc2r log10 g' channel channelData) as [g1' d'].
    cbn [fst snd] in *.
    assert (Hs11 : sameSettings g1 g1').
    { destruct Hs as [Ha Hb], Hs1 as [Ha1 Hb1], Hs1' as [Ha1' Hb1'].
      split; congruence. }
    destruct (IH g1 g1' (S channel) Hc1 Hc1' Hs11) as (Hrest & Hcf & Hsf).
    destruct (processChannels r2hc hc2r log10 g1 (S channel) rest) as [g2 ds].
    destruct (processChannels r2hc hc2r log10 g1' (S channel) rest) as [g2' ds'].
    cbn [fst snd] in *.
    split; [now rewrite Hd, Hrest|]. split; [exact Hcf|].
    destruct Hs1 as [Ha1 Hb1], Hsf as [Ha Hb]. split; congruence.
Qed.

(** The cache never shows in the results: two analyzers with the same
    settings and coherent caches (an analyzer without a buffer is one)
    give the same container for the same input, and [process] leaves
    the cache coherent. *)
Theorem process_cache_transparent (g g' : SpectrumGenerator) (result : PPresult) :
  cacheCoherent g -> cacheCoherent g' -> sameSettings g g' ->
  snd (process r2hc hc2r log10 g result) = snd (process r2hc hc2r log10 g' result)
  /\ cacheCoherent (fst (process r2hc hc2r log10 g result))
  /\ sameSettings g (fst (process r2hc hc2r log10 g result)).
Proof.
  intros Hc Hc' Hs. unfold process.
  destruct (processChannels_transparent (analyzedData result) g g' 0 Hc Hc' Hs)
    as (Hd & Hcf & Hsf).
  destruct (processChannels r2hc hc2r log10 g 0 (analyzedData result)) as [g1 ds].
  destruct (processChannels r2hc hc2r log10 g' 0 (analyzedData result)) as [g1' ds'].
  cbn [fst snd] in *. split; [now rewrite Hd|]. now split.
Qed.

End SpectrumCache.

Section SpectrumReuse.

#[local] Set Default Proof Using "Type".

Variable r2hc : list R -> nat -> R.
Variable hc2r : list R -> nat -> R.
Variable log10 : R -> R.

(** Once a channel of N samples (0 < N < 2^32) has been analysed, a
    further channel of the same length hits the cache: its analysis
    leaves the generator, window buffer included, as it is. *)
Theorem window_reused (g : SpectrumGenerator) (channel channel' : nat)
    (channelData channelData' : DataChannel) :
  sample (voltage channelData) <> [] ->
  length (sample (voltage channelData'))
  = length (sample (voltage channelData)) ->
  (Z.of_nat (length (sample (voltage channelData))) < 2 ^ 32)%Z ->
  let g1 := fst (processChannel r2hc hc2r log10 g channel channelData) in
  windowCacheMiss g1 (length (sample (voltage channelData'))) = false
  /\ fst (processChannel r2hc hc2r log10 g1 channel' channelData') = g1.
Proof.
  intros Hv Hlen Hmax. cbv zeta.
  set (n := length (sample (voltage channelData))) in *.
  assert (Hn : n <> 0%nat).
  { unfold n. destruct (sample (voltage channelData)); [congruence|discriminate]. }
  rewrite !processChannel_generator. fold n. rewrite Hlen.
  replace (Nat.eqb n 0) with false by (symmetry; now apply Nat.eqb_neq).
  assert (Hhit : windowCacheMiss (updateWindow g n) n = false).
  { unfold updateWindow.
    destruct (windowCacheMiss g n) eqn:Hmiss; [|exact Hmiss].
    unfold windowCacheMiss.
    cbn [lastWindowBuffer lastWindow lastRecordLength postprocessing].
    destruct (WindowFunction_eq_dec _ _) as [_|Hne]; [|congruence].
    rewrite recordLength_small by exact Hmax.
    now rewrite Z.eqb_refl. }
  split; [exact Hhit|].
  unfold updateWindow at 1. now rewrite Hhit.
Qed.

End SpectrumReuse.

(** ** What [process] keeps, and a second pass *)

Section SpectrumFrame.

#[local] Set Default Proof Using "Type".

Variable r2hc : list R -> nat -> R.
Variable hc2r : list R -> nat -> R.
Variable log10 : R -> R.

Lemma processChannel_voltage (g : SpectrumGenerator) (channel : nat)
    (channelData : DataChannel) :
  voltage (snd (processChannel r2hc hc2r log10 g channel channelData))
  = voltage channelData
  /\ valid (snd (processChannel r2hc hc2r log10 g channel channelData))
     = valid channelData.
Proof.
  unfold processChannel.
  destruct (Nat.eqb (length (sample (voltage channelData))) 0); [now split|].
  cbv zeta. destruct (finalSpectrum log10 _ _ _ _ _). now split.
Qed.

Lemma processChannels_frame (channels : list DataChannel)
    (g : SpectrumGenerator) (channel : nat) :
  map voltage (snd (processChannels r2hc hc2r log10 g channel channels))
  = map voltage channels
  /\ map valid (snd (processChannels r2hc hc2r log10 g channel channels))
     = map valid channels.
Proof.
  revert g channel.
  induction channels as [|channelData rest IH]; intros g channel.
  - now split.
  - cbn [processChannels].
    destruct (processChannel_voltage g channel channelData) as [Hv Hb].
    destruct (processChannel r2hc hc2r log10 g channel channelData) as [g1 d].
    destruct (IH g1 (S channel)) as [Hvs Hbs].
    destruct (processChannels r2hc hc2r log10 g1 (S channel) rest) as [g2 ds].
    cbn [fst snd map] in *. split; congruence.
Qed.

(** [process] never touches the voltage series or the [valid] flag of a
    channel, the number of channels or the trigger bookkeeping. *)
Theorem spectrum_process_frame (g : SpectrumGenerator) (result : PPresult) :
  let result' := snd (process r2hc hc2r log10 g result) in
  map voltage (analyzedData result') = map voltage (analyzedData result)
  /\ map valid (analyzedData result') = map valid (analyzedData result)
  /\ channelCount result' = channelCount result
  /\ softwareTriggerTriggered result' = softwareTriggerTriggered result
  /\ skipSamples result' = skipSamples result.
Proof.
  cbv zeta. unfold process.
  destruct (processChannels_frame (analyzedData result) g 0) as [Hv Hb].
  destruct (processChannels r2hc hc2r log10 g 0 (analyzedData result)) as [g1 ds].
  cbn [fst snd analyzedData softwareTriggerTriggered skipSamples] in *.
  split; [exact Hv|]. split; [exact Hb|].
  split; [|split; reflexivity].
  unfold channelCount. cbn [analyzedData].
  rewrite <- (length_map voltage ds), Hv. apply length_map.
Qed.

(** For a channel with samples the analysis reads nothing of the old
    record but its voltage series and its [valid] flag. *)
Lemma processChannel_reads (g : SpectrumGenerator) (channel : nat)
    (channelData channelData' : DataChannel) :
  sample (voltage channelData) <> [] ->
  voltage channelData' = voltage channelData ->
  valid channelData' = valid channelData ->
  snd (processChannel r2hc hc2r log10 g channel channelData')
  = snd (processChannel r2hc hc2r log10 g channel channelData).
Proof.
  intros Hne Hvolt Hvalid.
  rewrite !processChannel_samples by (rewrite ?Hvolt; exact Hne).
  now rewrite Hvolt, Hvalid.
Qed.

(** A second analysis of an analysed record gives the same record. *)
Lemma processChannel_twice (g g' : SpectrumGenerator) (channel : nat)
    (channelData : DataChannel) :
  cacheCoherent g -> cacheCoherent g' -> sameSettings g g' ->
  snd (processChannel r2hc hc2r log10 g' channel
         (snd (processChannel r2hc hc2r log10 g channel channelData)))
  = snd (processChannel r2hc hc2r log10 g channel channelData).
Proof.
  intros Hc Hc' Hs.
  destruct (sample (voltage channelData)) as [|x rest] eqn:Hv.
  - unfold processChannel. rewrite Hv. cbn [length Nat.eqb snd voltage].
    rewrite Hv. reflexivity.
  - destruct (processChannel_voltage g channel channelData) as [Hvolt Hvalid].
    rewrite (processChannel_reads g' channel channelData)
      by (rewrite ?Hv; try discriminate; assumption).
    apply processChannel_transparent; try assumption.
    destruct Hs; split; congruence.
Qed.

Lemma processChannels_twice (channels : list DataChannel)
    (g g' : SpectrumGenerator) (channel : nat) :
  cacheCoherent g -> cacheCoherent g' -> sameSettings g g' ->
  snd (processChannels r2hc hc2r log10 g' channel
         (snd (processChannels r2hc hc2r log10 g channel channels)))
  = snd (processChannels r2hc hc2r log10 g channel channels).
Proof.
  revert g g' channel.
  induction channels as [|channelData rest IH]; intros g g' channel Hc Hc' Hs.
  - reflexivity.
  - cbn [processChannels].
    pose proof (processChannel_twice g g' channel channelData Hc Hc' Hs) as Hd.
    destruct (processChannel_coherent r2hc hc2r log10 g channel channelData Hc)
      as [Hc1 Hs1].
    destruct (processChannel r2hc hc2r log10 g channel channelData) as [g1 d].
    cbn [fst snd] in *.
    destruct (processChannels r2hc hc2r log10 g1 (S channel) rest) as [g2 ds] eqn:E.
    cbn [snd processChannels].
    destruct (processChannel_coherent r2hc hc2r log10 g' channel d Hc')
      as [Hc1' Hs1'].
    destruct (processChannel r2hc hc2r log10 g' channel d) as [g1' d'].
    cbn [fst snd] in *.
    assert (Hs11 : sameSettings g1 g1').
    { destruct Hs as [Ha Hb], Hs1 as [Ha1 Hb1], Hs1' as [Ha1' Hb1'].
      split; congruence. }
    specialize (IH g1 g1' (S channel) Hc1 Hc1' Hs11). rewrite E in IH.
    cbn [snd] in IH.
    destruct (processChannels r2hc hc2r log10 g1' (S channel) ds) as [g2' ds'].
    cbn [snd] in *. now rewrite Hd, IH.
Qed.

(** Analysing a container twice gives the same container as analysing
    it once, starting from any coherent cache. *)
Theorem spectrum_process_twice (g : SpectrumGenerator) (result : PPresult) :
  cacheCoherent g ->
  let once := process r2hc hc2r log10 g result in
  snd (process r2hc hc2r log10 (fst once) (snd once)) = snd once.
Proof.
  intros Hc. cbv zeta.
  destruct (process_cache_transparent r2hc hc2r log10 g g result Hc Hc)
    as (_ & Hc1 & Hs1); [split; reflexivity|].
  unfold process in *.
  pose proof (fun g' => processChannels_twice (analyzedData result) g g' 0 Hc) as H2.
  destruct (processChannels r2hc hc2r log10 g 0 (analyzedData result)) as [g1 ds].
  cbn [fst snd analyzedData softwareTriggerTriggered skipSamples] in *.
  specialize (H2 g1 Hc1 Hs1).
  destruct (processChannels r2hc hc2r log10 g1 0 ds) as [g2 ds'].
  cbn [snd] in *. now rewrite H2.
Qed.

End SpectrumFrame.

(** ** The magnitude loop *)

Lemma assign_nth_same {A : Type} (l : list A) (i : nat) (x d : A) :
  (i < length l)%nat -> nth i (assign l i x) d = x.
Proof.
  revert i; induction l as [|h t IH]; intros [|j] H; simpl in *; try lia; auto.
  apply IH. lia.
Qed.

Lemma assign_nth_other {A : Type} (l : list A) (i k : nat) (x d : A) :
  i <> k -> nth k (assign l i x) d = nth k l d.
Proof.
  revert i k; induction l as [|h t IH]; intros [|i] [|k] H; simpl; auto.
  congruence.
Qed.

Lemma execute_nth (plan : list R -> nat -> R) (n k : nat) (input : list R) :
  (k < n)%nat -> nth k (execute plan n input) 0 = plan input k.
Proof.
  intros Hk. unfold execute.
  rewrite (nth_indep (map (plan input) (seq 0 n)) 0 (plan input 0%nat))
    by (now rewrite length_map, length_seq).
  now rewrite map_nth, seq_nth.
Qed.

Lemma resize_nth (n k : nat) (v : list R) :
  (k < n)%nat -> (k < length v)%nat -> nth k (resize n v) 0 = nth k v 0.
Proof.
  intros Hn Hv. unfold resize.
  rewrite app_nth1 by (rewrite length_firstn; lia).
  rewrite <- (firstn_skipn n v) at 2.
  now rewrite app_nth1 by (rewrite length_firstn; lia).
Qed.

(** State of the two buffers after the positions [1 .. m] of the
    magnitude loop, as long as the forward and the reverse iterator
    have not met. *)
Lemma magnitude_loop (factor : R) (spec conjugateComplex : list R) (m : nat) :
  (2 * m < length spec)%nat ->
  let buffers :=
    fold_left (magnitudeStep factor) (seq 1 m) (spec, conjugateComplex) in
  length (fst buffers) = length spec
  /\ length (snd buffers) = length conjugateComplex
  /\ (forall k : nat,
        nth k (fst buffers) 0
        = if (1 <=? k)%nat && (k <=? m)%nat then sqrt (power spec k)
          else nth k spec 0)
  /\ (forall k : nat, (k < length conjugateComplex)%nat ->
        nth k (snd buffers) 0
        = if (1 <=? k)%nat && (k <=? m)%nat then power spec k * factor
          else nth k conjugateComplex 0).
Proof.
  cbv zeta. induction m as [|m IH]; intros Hm.
  - cbn [seq fold_left fst snd].
    split; [reflexivity|]. split; [reflexivity|].
    split; intros [|k]; intros; cbn [Nat.leb andb]; rewrite ?andb_false_r;
      reflexivity.
  - rewrite seq_S, fold_left_app. cbn [fold_left].
    destruct IH as (Hls & Hlc & Hs & Hc); [lia|].
    destruct (fold_left (magnitudeStep factor) (seq 1 m) (spec, conjugateComplex))
      as [spec1 cc1].
    cbn [fst snd] in *. unfold magnitudeStep. cbn [fst snd].
    rewrite !assign_length.
    assert (Hfwd : nth (1 + m) spec1 0 = nth (1 + m) spec 0).
    { rewrite Hs. replace ((1 + m <=? m)%nat) with false
        by (symmetry; apply Nat.leb_gt; lia).
      now rewrite andb_false_r. }
    assert (Hrev : nth (length spec1 - (1 + m)) spec1 0
                   = nth (length spec - (1 + m)) spec 0).
    { rewrite Hls, Hs.
      replace ((length spec - (1 + m) <=? m)%nat) with false
        by (symmetry; apply Nat.leb_gt; lia).
      now rewrite andb_false_r. }
    rewrite Hfwd, Hrev. fold (power spec (1 + m)).
    split; [exact Hls|]. split; [exact Hlc|]. split.
    + intros k. destruct (Nat.eq_dec k (1 + m)) as [->|Hne].
      * rewrite assign_nth_same by lia.
        replace ((1 <=? 1 + m)%nat) with true by (symmetry; apply Nat.leb_le; lia).
        replace ((1 + m <=? S m)%nat) with true by (symmetry; apply Nat.leb_le; lia).
        reflexivity.
      * rewrite assign_nth_other by lia. rewrite Hs.
        destruct (1 <=? k)%nat eqn:E1; [|reflexivity]. cbn [andb].
        destruct (k <=? m)%nat eqn:E2.
        -- apply Nat.leb_le in E2.
           replace ((k <=? S m)%nat) with true by (symmetry; apply Nat.leb_le; lia).
           reflexivity.
        -- apply Nat.leb_gt in E2.
           replace ((k <=? S m)%nat) with false by (symmetry; apply Nat.leb_gt; lia).
           reflexivity.
    + intros k Hk. destruct (Nat.eq_dec k (1 + m)) as [->|Hne].
      * rewrite assign_nth_same by lia.
        replace ((1 <=? 1 + m)%nat) with true by (symmetry; apply Nat.leb_le; lia).
        replace ((1 + m <=? S m)%nat) with true by (symmetry; apply Nat.leb_le; lia).
        reflexivity.
      * rewrite assign_nth_other by lia. rewrite Hc by exact Hk.
        destruct (1 <=? k)%nat eqn:E1; [|reflexivity]. cbn [andb].
        destruct (k <=? m)%nat eqn:E2.
        -- apply Nat.leb_le in E2.
           replace ((k <=? S m)%nat) with true by (symmetry; apply Nat.leb_le; lia).
           reflexivity.
        -- apply Nat.leb_gt in E2.
           replace ((k <=? S m)%nat) with false by (symmetry; apply Nat.leb_gt; lia).
           reflexivity.
Qed.

(** The loop that clears the upper part of [conjugateComplex]. *)
Lemma clear_loop (count first : nat) (buffer : list R) :
  let cleared :=
    fold_left (fun b k => assign b k 0) (seq first count) buffer in
  length cleared = length buffer
  /\ forall k : nat, (k < length buffer)%nat ->
       nth k cleared 0
       = if (first <=? k)%nat && (k <? first + count)%nat then 0
         else nth k buffer 0.
Proof.
  cbv zeta. revert first buffer.
  induction count as [|count IH]; intros first buffer; cbn [seq fold_left].
  - split; [reflexivity|]. intros k Hk.
    destruct (first <=? k)%nat eqn:E1; [|reflexivity].
    replace ((k <? first + 0)%nat) with false; [reflexivity|].
    symmetry. apply Nat.ltb_ge. apply Nat.leb_le in E1. lia.
  - destruct (IH (S first) (assign buffer first 0)) as [Hlen Hnth].
    rewrite assign_length in *. split; [exact Hlen|].
    intros k Hk. rewrite Hnth by exact Hk.
    destruct (Nat.eq_dec k first) as [->|Hne].
    + replace ((S first <=? first)%nat) with false
        by (symmetry; apply Nat.leb_gt; lia).
      rewrite assign_nth_same by exact Hk.
      replace ((first <=? first)%nat) with true by (symmetry; apply Nat.leb_le; lia).
      replace ((first <? first + S count)%nat) with true
        by (symmetry; apply Nat.ltb_lt; lia).
      reflexivity.
    + rewrite assign_nth_other by lia.
      destruct (S first <=? k)%nat eqn:E1.
      * apply Nat.leb_le in E1.
        replace ((first <=? k)%nat) with true by (symmetry; apply Nat.leb_le; lia).
        replace (S first + count)%nat with (first + S count)%nat by lia.
        reflexivity.
      * apply Nat.leb_gt in E1.
        replace ((first <=? k)%nat) with false by (symmetry; apply Nat.leb_gt; lia).
        reflexivity.
Qed.

Lemma dftLength_small (sampleCount : nat) :
  (Z.of_nat sampleCount < 2 ^ 32)%Z ->
  Z.to_nat (dftLength sampleCount) = (sampleCount / 2)%nat.
Proof.
  intros Hmax. unfold dftLength, uint.
  rewrite Z.mod_small.
  - change 2%Z with (Z.of_nat 2). now rewrite <- Nat2Z.inj_div, Nat2Z.id.
  - split; [apply Z.div_pos; lia|].
    apply Z.div_lt_upper_bound; lia.
Qed.

(** ** Contents of the spectrum and of the inverse-transform input *)

Lemma magnitudes_buffers (sampleCount : nat) (spec windowedValues : list R) :
  let factor := correctionFactor sampleCount in
  let buffers :=
    fold_left (magnitudeStep factor)
      (seq 1 (Z.to_nat (dftLength sampleCount) - 1))
      (spec, assign windowedValues 0 (nth 0 spec 0 * nth 0 spec 0 * factor)) in
  let position := Nat.max 1 (Z.to_nat (dftLength sampleCount)) in
  magnitudes sampleCount spec windowedValues
  = (fst buffers,
     fold_left (fun buffer k => assign buffer k 0)
       (seq (S position) (sampleCount - S position))
       (assign (snd buffers) position
          (nth position (fst buffers) 0 * nth position (fst buffers) 0 * factor))).
Proof.
  cbv zeta. unfold magnitudes. cbv zeta.
  destruct (fold_left _ _ _). reflexivity.
Qed.

Lemma windowedValues_length (g : SpectrumGenerator) (v : list R) :
  length (windowedValues g v) = length v.
Proof. unfold windowedValues, applyWindow. now rewrite length_map, length_seq. Qed.

Lemma correctionFactor_pos (sampleCount : nat) :
  (2 <= sampleCount)%nat ->
  (Z.of_nat sampleCount < 2 ^ 32)%Z ->
  0 < correctionFactor sampleCount.
Proof.
  intros H2 Hmax. unfold correctionFactor.
  assert (Hd : 1 <= IZR (dftLength sampleCount)).
  { apply IZR_le. pose proof (dftLength_small sampleCount Hmax) as H.
    assert (1 <= sampleCount / 2)%nat by (apply Nat.div_le_lower_bound; lia).
    assert (0 <= dftLength sampleCount)%Z
      by (unfold dftLength, uint; apply Z.mod_pos_bound; lia).
    lia. }
  apply Rdiv_lt_0_compat; [|lra]. apply Rdiv_lt_0_compat; lra.
Qed.

Section SpectrumBins.

#[local] Set Default Proof Using "Type".

Variable r2hc : list R -> nat -> R.

(** After the forward transform and the truncation, bin 0 of the
    spectrum holds the first output of the transform as it is, and bin
    [k >= 1] the magnitude [sqrt (re_k^2 + im_k^2)] of the [k]-th
    frequency, whose real part is output [k] and whose imaginary part is
    output [N - k]. *)
Theorem truncated_spectrum_bins (g : SpectrumGenerator) (v : list R) (k : nat) :
  (Z.of_nat (length v) < 2 ^ 32)%Z ->
  (k < length v / 2 - 1)%nat ->
  let X := r2hc (windowedValues g v) in
  nth k (truncatedSpectrum r2hc g v) 0
  = if Nat.eqb k 0 then X 0%nat
    else sqrt (X k * X k + X (length v - k)%nat * X (length v - k)%nat).
Proof.
  intros Hmax Hk. cbv zeta.
  set (n := length v) in *.
  assert (Hn : (2 <= n)%nat) by (destruct (Nat.lt_ge_cases n 2) as [H|H]; [|exact H];
    exfalso; assert (n / 2 = 0)%nat by (apply Nat.div_small; lia); lia).
  assert (Hhalf : (2 * (n / 2) <= n)%nat) by (apply Nat.Div0.mul_div_le).
  unfold truncatedSpectrum, transformed. fold n.
  rewrite magnitudes_fst, spectrumLength_small, dftLength_small by assumption.
  destruct (magnitude_loop (correctionFactor n)
              (execute r2hc n (windowedValues g v))
              (assign (windowedValues g v) 0
                 (nth 0 (execute r2hc n (windowedValues g v)) 0
                  * nth 0 (execute r2hc n (windowedValues g v)) 0
                  * correctionFactor n))
              (n / 2 - 1))
    as (Hlen & _ & Hnth & _); [rewrite execute_length; lia|].
  rewrite execute_length in Hlen.
  rewrite resize_nth by lia. rewrite Hnth.
  destruct k as [|k]; [cbn [Nat.leb andb Nat.eqb]; apply execute_nth; lia|].
  replace ((1 <=? S k)%nat) with true by (symmetry; apply Nat.leb_le; lia).
  replace ((S k <=? n / 2 - 1)%nat) with true by (symmetry; apply Nat.leb_le; lia).
  cbn [andb Nat.eqb]. unfold power. rewrite execute_length.
  now rewrite !execute_nth by lia.
Qed.

(** The array handed to the inverse transform is a real, non-negative
    power spectrum: entry 0 and entry [N/2] hold the square of one
    transform output, the entries between them the squared magnitudes,
    all scaled by [correctionFactor], and every entry above [N/2] is
    0. *)
Theorem autocorrelation_input (g : SpectrumGenerator) (v : list R) (k : nat) :
  (2 <= length v)%nat ->
  (Z.of_nat (length v) < 2 ^ 32)%Z ->
  (k < length v)%nat ->
  let X := r2hc (windowedValues g v) in
  let entry := nth k (snd (transformed r2hc g v)) 0 in
  entry
  = (if Nat.eqb k 0 then X 0%nat * X 0%nat * correctionFactor (length v)
     else if Nat.ltb k (length v / 2) then
       (X k * X k + X (length v - k)%nat * X (length v - k)%nat)
       * correctionFactor (length v)
     else if Nat.eqb k (length v / 2) then
       X k * X k * correctionFactor (length v)
     else 0)
  /\ 0 <= entry.
Proof.
  intros Hn Hmax Hk. cbv zeta.
  set (n := length v) in *.
  pose proof (correctionFactor_pos n Hn Hmax) as Hf.
  assert (Hhalf : (2 * (n / 2) <= n)%nat) by (apply Nat.Div0.mul_div_le).
  assert (Hhalf1 : (1 <= n / 2)%nat) by (apply Nat.div_le_lower_bound; lia).
  assert (Hformula :
    nth k (snd (transformed r2hc g v)) 0
    = (if Nat.eqb k 0 then
         r2hc (windowedValues g v) 0%nat * r2hc (windowedValues g v) 0%nat
         * correctionFactor n
       else if Nat.ltb k (n / 2) then
         (r2hc (windowedValues g v) k * r2hc (windowedValues g v) k
          + r2hc (windowedValues g v) (n - k)%nat
            * r2hc (windowedValues g v) (n - k)%nat)
         * correctionFactor n
       else if Nat.eqb k (n / 2) then
         r2hc (windowedValues g v) k * r2hc (windowedValues g v) k
         * correctionFactor n
       else 0)).
  { unfold transformed. fold n.
    rewrite magnitudes_buffers. cbv zeta. cbn [snd].
    rewrite dftLength_small by assumption.
    replace (Nat.max 1 (n / 2)) with (n / 2)%nat by lia.
    destruct (magnitude_loop (correctionFactor n)
                (execute r2hc n (windowedValues g v))
                (assign (windowedValues g v) 0
                   (nth 0 (execute r2hc n (windowedValues g v)) 0
                    * nth 0 (execute r2hc n (windowedValues g v)) 0
                    * correctionFactor n))
                (n / 2 - 1))
      as (Hlen & Hlenc & Hnth & Hnthc); [rewrite execute_length; lia|].
    rewrite execute_length in Hlen.
    rewrite assign_length, windowedValues_length in Hlenc, Hnthc. fold n in Hlenc, Hnthc.
    set (buffers := fold_left _ _ _) in *.
    destruct (clear_loop (n - S (n / 2)) (S (n / 2))
                (assign (snd buffers) (n / 2)
                   (nth (n / 2) (fst buffers) 0 * nth (n / 2) (fst buffers) 0
                    * correctionFactor n)))
      as [_ Hclear].
    rewrite Hclear by (rewrite assign_length; lia).
    destruct (Nat.lt_ge_cases (n / 2) k) as [Hhigh|Hlow].
    - replace ((S (n / 2) <=? k)%nat) with true by (symmetry; apply Nat.leb_le; lia).
      replace ((k <? S (n / 2) + (n - S (n / 2)))%nat) with true
        by (symmetry; apply Nat.ltb_lt; lia).
      cbn [andb].
      replace (Nat.eqb k 0) with false by (symmetry; apply Nat.eqb_neq; lia).
      replace (Nat.ltb k (n / 2)) with false by (symmetry; apply Nat.ltb_ge; lia).
      replace (Nat.eqb k (n / 2)) with false by (symmetry; apply Nat.eqb_neq; lia).
      reflexivity.
    - replace ((S (n / 2) <=? k)%nat) with false by (symmetry; apply Nat.leb_gt; lia).
      cbn [andb].
      destruct (Nat.eq_dec k (n / 2)) as [->|Hne].
      + rewrite assign_nth_same by lia. rewrite Hnth.
        replace ((n / 2 <=? n / 2 - 1)%nat) with false
          by (symmetry; apply Nat.leb_gt; lia).
        rewrite andb_false_r.
        replace (Nat.eqb (n / 2) 0) with false by (symmetry; apply Nat.eqb_neq; lia).
        rewrite Nat.ltb_irrefl, Nat.eqb_refl.
        now rewrite execute_nth by lia.
      + rewrite assign_nth_other by lia. rewrite Hnthc by lia.
        replace (Nat.ltb k (n / 2)) with true by (symmetry; apply Nat.ltb_lt; lia).
        destruct k as [|k].
        * cbn [Nat.leb andb Nat.eqb].
          rewrite assign_nth_same by (rewrite windowedValues_length; fold n; lia).
          now rewrite execute_nth by lia.
        * replace ((1 <=? S k)%nat) with true by (symmetry; apply Nat.leb_le; lia).
          replace ((S k <=? n / 2 - 1)%nat) with true
            by (symmetry; apply Nat.leb_le; lia).
          cbn [andb Nat.eqb]. unfold power. rewrite execute_length.
          now rewrite !execute_nth by lia. }
  split; [exact Hformula|].
  rewrite Hformula.
  destruct (Nat.eqb k 0); [|destruct (Nat.ltb k (n / 2));
                             [|destruct (Nat.eqb k (n / 2))]]; nra.
Qed.

End SpectrumBins.

(** ** Peak search: when there is no peak *)

Lemma runningMinimum_falling (correlation : list R) (k : nat) :
  (forall q : nat, (1 <= q <= k)%nat ->
     nth q correlation 0 <= nth (q - 1) correlation 0) ->
  runningMinimum correlation k = nth k correlation 0.
Proof.
  induction k as [|k IH]; intros Hfall; [reflexivity|].
  cbn [runningMinimum]. rewrite IH by (intros q Hq; apply Hfall; lia).
  apply Rmin_right.
  specialize (Hfall (S k) ltac:(lia)).
  now rewrite Nat.sub_succ, Nat.sub_0_r in Hfall.
Qed.

(** A correlation that has no positive value, or that never rises, over
    the scanned indices has no peak: [peakPosition] is 0 and the
    autocorrelation frequency is 0. *)
Theorem scan_without_peak (correlation : list R) (sampleCount : nat) (dt : R) :
  (forall q : nat, (1 <= q < sampleCount / 2)%nat -> nth q correlation 0 <= 0)
  \/ (forall q : nat, (1 <= q < sampleCount / 2)%nat ->
        nth q correlation 0 <= nth (q - 1) correlation 0) ->
  peakPosition (scanCorrelation correlation sampleCount) = 0%nat
  /\ autocorrelationFrequency dt
       (peakPosition (scanCorrelation correlation sampleCount)) = 0.
Proof.
  intros Hshape.
  assert (Hp : peakPosition (scanCorrelation correlation sampleCount) = 0%nat).
  { destruct (scanCorrelation_first_greatest correlation sampleCount)
      as [[H0 _] | [[Hrange [Hpos Habove]] _]]; [exact H0|].
    exfalso.
    set (p := peakPosition (scanCorrelation correlation sampleCount)) in *.
    destruct Hshape as [Hneg | Hfall].
    - specialize (Hneg p Hrange). unfold Rgt in Hpos. lra.
    - rewrite runningMinimum_falling in Habove
        by (intros q Hq; apply Hfall; lia).
      specialize (Hfall p Hrange). unfold Rgt in Habove. lra. }
  split; [exact Hp|]. now rewrite Hp.
Qed.

Section SpectrumFrequency.

#[local] Set Default Proof Using "Type".

Variable r2hc : list R -> nat -> R.
Variable hc2r : list R -> nat -> R.
Variable log10 : R -> R.

(** The spectral peak index is 0 or the index of a bin. *)
Lemma peakPos_in_range (pp : DsoSettingsPostProcessing) (sampleCount : nat)
    (used : bool) (frequency0 : R) (bins : list R) :
  snd (finalSpectrum log10 pp sampleCount used frequency0 bins) = 0%nat
  \/ (snd (finalSpectrum log10 pp sampleCount used frequency0 bins)
      < length bins)%nat.
Proof.
  unfold finalSpectrum. destruct (used || Reqb 0 frequency0); [|now left].
  destruct (dBLoop_peak log10 (dBOffset log10 pp sampleCount) (dBOffsetLimit pp)
              bins 0 (hd 0 bins) 0)
    as [[H _] | (i & Hi & H & _)]; [now left|right].
  rewrite length_map in Hi. rewrite H. lia.
Qed.

(** For a channel of 2 <= N < 2^32 samples taken at a positive interval,
    the frequency [process] reports is never negative and stays below
    half the sampling rate. *)
Theorem frequency_below_nyquist (g : SpectrumGenerator) (channel : nat)
    (channelData : DataChannel) :
  (2 <= length (sample (voltage channelData)))%nat ->
  (Z.of_nat (length (sample (voltage channelData))) < 2 ^ 32)%Z ->
  0 < interval (voltage channelData) ->
  0 <= frequency (snd (processChannel r2hc hc2r log10 g channel channelData))
    < 1 / (2 * interval (voltage channelData)).
Proof.
  intros H2 Hmax Hdt.
  rewrite processChannel_samples
    by (intros E; rewrite E in H2; simpl in H2; lia).
  cbn [snd frequency].
  set (v := sample (voltage channelData)) in *.
  set (dt := interval (voltage channelData)) in *.
  set (p := peakPosition (scanCorrelation (correlation r2hc hc2r g v) (length v))).
  assert (Hhalf : 0 < 1 / (2 * dt)).
  { apply Rdiv_lt_0_compat; lra. }
  assert (Hf0 : 0 <= autocorrelationFrequency dt p < 1 / (2 * dt)).
  { unfold autocorrelationFrequency.
    destruct (Nat.ltb 100 p) eqn:E; [|lra].
    apply Nat.ltb_lt in E.
    assert (Hp : 101 <= INR p).
    { replace 101 with (INR 101) by (simpl; lra). apply le_INR. lia. }
    assert (Hprod : 2 * dt < dt * INR p) by nra.
    split.
    - apply Rlt_le, Rdiv_lt_0_compat; nra.
    - unfold Rdiv. rewrite !Rmult_1_l.
      replace 1.0 with 1 by lra. rewrite Rmult_1_l.
      apply Rinv_lt_contravar; nra. }
  set (final := finalSpectrum log10 (postprocessing g) (length v)
                  (spectrum_used (scope g) channel)
                  (autocorrelationFrequency dt p) (truncatedSpectrum r2hc g v)).
  destruct (Nat.eqb (snd final) 0) eqn:E; [exact Hf0|].
  apply Nat.eqb_neq in E.
  destruct (peakPos_in_range (postprocessing g) (length v)
              (spectrum_used (scope g) channel) (autocorrelationFrequency dt p)
              (truncatedSpectrum r2hc g v)) as [H0 | Hlt]; [contradiction|].
  fold final in Hlt.
  unfold truncatedSpectrum in Hlt.
  rewrite resize_length, spectrumLength_small in Hlt by assumption.
  assert (Hn : 0 < INR (length v)) by (apply lt_0_INR; lia).
  assert (Hi : 2 * INR (snd final) < INR (length v)).
  { replace 2 with (INR 2) by (simpl; lra). rewrite <- mult_INR.
    apply lt_INR. pose proof (Nat.Div0.mul_div_le (length v) 2). lia. }
  assert (Hi0 : 0 <= INR (snd final)) by apply pos_INR.
  replace (1.0 / dt / INR (length v) * INR (snd final))
    with (INR (snd final) / (dt * INR (length v)))
    by (replace 1.0 with 1 by lra; field; split; lra).
  split.
  - apply Rmult_le_pos; [exact Hi0|].
    apply Rlt_le, Rinv_0_lt_compat. nra.
  - apply (Rmult_lt_reg_r (dt * INR (length v))); [nra|].
    unfold Rdiv at 1. rewrite Rmult_assoc, Rinv_l by nra.
    replace (1 / (2 * dt) * (dt * INR (length v))) with (INR (length v) / 2)
      by (field; lra).
    lra.
Qed.

(** A record of at most 203 samples is too short for the
    autocorrelation estimate: its spectrum is converted to dB whether or
    not the spectrum of the channel is in use, and its frequency is 0
    unless the spectral peak gives one. *)
Theorem short_record (g : SpectrumGenerator) (channel : nat)
    (channelData : DataChannel) :
  sample (voltage channelData) <> [] ->
  (length (sample (voltage channelData)) <= 203)%nat ->
  let v := sample (voltage channelData) in
  let analyzed := snd (processChannel r2hc hc2r log10 g channel channelData) in
  let final :=
    finalSpectrum log10 (postprocessing g) (length v)
      (spectrum_used (scope g) channel) 0 (truncatedSpectrum r2hc g v) in
  sample (spectrum analyzed)
  = map (dBValue log10 (dBOffset log10 (postprocessing g) (length v))
           (dBOffsetLimit (postprocessing g)))
        (truncatedSpectrum r2hc g v)
  /\ frequency analyzed
     = if Nat.eqb (snd final) 0 then 0
       else interval (spectrum analyzed) * INR (snd final).
Proof.
  intros Hv Hshort. cbv zeta.
  rewrite processChannel_samples by exact Hv.
  cbn [snd sample spectrum frequency interval].
  set (v := sample (voltage channelData)) in *.
  set (p := peakPosition (scanCorrelation (correlation r2hc hc2r g v) (length v))).
  assert (Hf0 : autocorrelationFrequency (interval (voltage channelData)) p = 0).
  { unfold autocorrelationFrequency.
    replace (Nat.ltb 100 p) with false; [reflexivity|].
    symmetry. apply Nat.ltb_ge.
    assert (length v / 2 < 102)%nat by (apply Nat.Div0.div_lt_upper_bound; lia).
    unfold p.
    destruct (scanCorrelation_first_greatest (correlation r2hc hc2r g v) (length v))
      as [[H0 _] | [[Hrange _] _]]; lia. }
  rewrite Hf0. split; [|reflexivity].
  unfold finalSpectrum.
  replace (Reqb 0 0) with true by (symmetry; now apply Reqb_true_iff).
  rewrite orb_true_r. apply dBLoop_converted.
Qed.

(** With a coherent cache and a window whose coefficients lie between 0
    and 1, no windowed value exceeds the DC-removed sample it comes
    from. *)
Theorem window_attenuates (g : SpectrumGenerator) (v : list R) (i : nat) :
  cacheCoherent g ->
  unitRangeWindow (spectrumWindow (postprocessing g)) = true ->
  (2 <= length v)%nat ->
  (Z.of_nat (length v) < 2 ^ 32)%Z ->
  (i < length v)%nat ->
  Rabs (nth i (windowedValues g v) 0) <= Rabs (nth i v 0 - mean v).
Proof.
  intros Hc Hw H2 Hmax Hi.
  unfold windowedValues. rewrite window_in_use by exact Hc.
  unfold applyWindow.
  set (f := fun position : nat =>
              nth position (computeWindow (spectrumWindow (postprocessing g))
                              (length v)) 0
              * (nth position v 0 - mean v)).
  rewrite (nth_indep (map f (seq 0 (length v))) 0 (f 0%nat))
    by (now rewrite length_map, length_seq).
  rewrite map_nth, seq_nth by exact Hi. unfold f. cbn [Nat.add].
  rewrite computeWindow_nth by assumption.
  pose proof (windowValue_unit_range (spectrumWindow (postprocessing g))
                (Z.of_nat (length v)) (Z.of_nat i) Hw ltac:(lia) ltac:(lia))
    as [Hw0 Hw1].
  rewrite Rabs_mult, (Rabs_right (windowValue _ _ _ _)) by lra.
  pose proof (Rabs_pos (nth i v 0 - mean v)). nra.
Qed.

End SpectrumFrequency.

(** ** Statistics: DC offsets and constant signals *)





Lemma total_repeat (x : R) (n : nat) : total (repeat x n) = INR n * x.
Proof.
  induction n as [|n IH]; [simpl; lra|].
  cbn [repeat total fold_right]. fold (total (repeat x n)).
  rewrite IH, S_INR. lra.
Qed.

Section SpectrumStatistics.

#[local] Set Default Proof Using "Type".

Variable r2hc : list R -> nat -> R.
Variable hc2r : list R -> nat -> R.
Variable log10 : R -> R.


(** The three statistics are ordered: [0 <= ac <= rms] and
    [|dc| <= rms]. *)
Theorem statistics_ordered (g : SpectrumGenerator) (channel : nat)
    (channelData : DataChannel) :
  sample (voltage channelData) <> [] ->
  let analyzed := snd (processChannel r2hc hc2r log10 g channel channelData) in
  0 <= ac analyzed <= rms analyzed /\ Rabs (dc analyzed) <= rms analyzed.
Proof.
  intros Hv. cbv zeta.
  rewrite processChannel_samples by exact Hv. cbn [snd dc ac rms].
  set (v := sample (voltage channelData)) in *.
  pose proof (meanSquare_nonneg v (mean v) Hv) as Hac2.
  assert (Hsq : 0 <= mean v * mean v) by nra.
  split; [split|].
  - apply sqrt_pos.
  - apply sqrt_le_1; lra.
  - rewrite <- sqrt_Rsqr_abs. unfold Rsqr. apply sqrt_le_1; lra.
Qed.

(** A constant signal has [dc] equal to its level, [ac = 0] and
    [rms = |dc|], and every windowed value handed to the transform is
    0. *)
Theorem constant_signal (g : SpectrumGenerator) (channel : nat)
    (channelData : DataChannel) (level : R) (n : nat) :
  sample (voltage channelData) = repeat level (S n) ->
  let analyzed := snd (processChannel r2hc hc2r log10 g channel channelData) in
  dc analyzed = level
  /\ ac analyzed = 0
  /\ rms analyzed = Rabs level
  /\ forall i : nat,
       nth i (windowedValues g (sample (voltage channelData))) 0 = 0.
Proof.
  intros Hv. cbv zeta.
  assert (Hne : sample (voltage channelData) <> []) by (rewrite Hv; discriminate).
  rewrite processChannel_samples by exact Hne. cbn [snd dc ac rms].
  rewrite Hv.
  assert (Hn : INR (S n) <> 0) by (apply not_0_INR; lia).
  assert (Hmean : mean (repeat level (S n)) = level).
  { rewrite mean_arithmeticMean. unfold arithmeticMean.
    rewrite total_repeat, repeat_length. field. exact Hn. }
  assert (Hsq : meanSquare (repeat level (S n)) level = 0).
  { rewrite meanSquare_arithmeticMean. unfold arithmeticMean.
    rewrite map_repeat, total_repeat. unfold Rdiv. ring. }
  rewrite Hmean, Hsq.
  split; [reflexivity|]. split; [apply sqrt_0|].
  split.
  - rewrite Rplus_0_r. fold (Rsqr level). apply sqrt_Rsqr_abs.
  - intros i. unfold windowedValues, applyWindow. rewrite Hmean.
    destruct (Nat.lt_ge_cases i (length (repeat level (S n)))) as [Hi|Hi].
    + set (f := fun position : nat => _ * _).
      rewrite (nth_indep (map f (seq 0 (length (repeat level (S n))))) 0 (f 0%nat))
        by (now rewrite length_map, length_seq).
      rewrite map_nth, seq_nth by exact Hi. unfold f. cbn [Nat.add].
      rewrite nth_repeat_lt by (rewrite repeat_length in Hi; exact Hi). lra.
    + apply nth_overflow. now rewrite length_map, length_seq.
Qed.

End SpectrumStatistics.

(** ** The further properties at concrete inputs *)

Lemma math_process_frame_witness :
  exists result' : PPresult,
    MathChannel.process (MathChannel.mkGenerator 2 sampleScope) sampleResult
    = Some result'
    /\ channelCount result' = channelCount sampleResult
    /\ data result' 0 = data sampleResult 0.
Proof.
  eexists. split; [reflexivity|].
  destruct (math_process_frame (MathChannel.mkGenerator 2 sampleScope)
              sampleResult _ eq_refl) as (Hcount & _ & _ & Hdata).
  split; [exact Hcount|].
  destruct (Hdata 0%nat (sampleChannel [1; 2; 3; 4; 5] 1) eq_refl)
    as (d' & Hd' & _ & Hkeep).
  rewrite Hd'. cbn [data sampleResult analyzedData nth_error]. f_equal.
  apply Hkeep. left. simpl. lia.
Defined.

Lemma math_process_twice_witness :
  exists result' : PPresult,
    MathChannel.process (MathChannel.mkGenerator 2 sampleScope) sampleResult
    = Some result'
    /\ MathChannel.process (MathChannel.mkGenerator 2 sampleScope) result'
       = Some result'.
Proof.
  eexists. split; [reflexivity|].
  apply (math_process_twice (MathChannel.mkGenerator 2 sampleScope) sampleResult).
  - simpl. lia.
  - reflexivity.
Defined.

Lemma window_symmetric_witness :
  nth 2 (computeWindow HAMMING 4) 0 = nth 1 (computeWindow HAMMING 4) 0.
Proof.
  apply (window_symmetric HAMMING 4 1).
  - discriminate.
  - lia.
  - reflexivity.
Defined.

Lemma bartletthann_scaled_hann_witness :
  nth 1 (computeWindow BARTLETTHANN 4) 0 = 0.76 * nth 1 (computeWindow HANN 4) 0.
Proof.
  apply (bartletthann_scaled_hann 4 1).
  - lia.
  - lia.
  - reflexivity.
Defined.

Lemma window_magnitude_witness :
  Rabs (nth 1 (computeWindow BLACKMAN 4) 0) <= 1.
Proof.
  apply (window_magnitude BLACKMAN 4 1).
  - reflexivity.
  - lia.
  - lia.
  - reflexivity.
Defined.

Lemma warmGenerator_coherent : cacheCoherent warmGenerator.
Proof. apply updateWindow_coherent. exact I. Qed.

Lemma process_cache_transparent_witness :
  snd (process zeroTransform zeroTransform decimalLog sampleGenerator sampleResult)
  = snd (process zeroTransform zeroTransform decimalLog warmGenerator sampleResult).
Proof.
  apply (process_cache_transparent zeroTransform zeroTransform decimalLog
           sampleGenerator warmGenerator sampleResult).
  - exact I.
  - exact warmGenerator_coherent.
  - split; reflexivity.
Defined.

Lemma window_reused_witness :
  let g1 :=
    fst (processChannel zeroTransform zeroTransform decimalLog sampleGenerator 0
           fourSamples) in
  windowCacheMiss g1 4 = false
  /\ fst (processChannel zeroTransform zeroTransform decimalLog g1 1
            fourSamplesRaised) = g1.
Proof.
  apply (window_reused zeroTransform zeroTransform decimalLog sampleGenerator
           0 1 fourSamples fourSamplesRaised).
  - discriminate.
  - reflexivity.
  - reflexivity.
Defined.

Lemma spectrum_process_twice_witness :
  let once :=
    process zeroTransform zeroTransform decimalLog sampleGenerator sampleResult in
  snd (process zeroTransform zeroTransform decimalLog (fst once) (snd once))
  = snd once.
Proof.
  apply (spectrum_process_twice zeroTransform zeroTransform decimalLog
           sampleGenerator sampleResult).
  exact I.
Defined.

Lemma truncated_spectrum_bins_witness :
  let X := halfComplex (windowedValues sampleGenerator (sample (voltage sixSamples))) in
  nth 1 (truncatedSpectrum halfComplex sampleGenerator (sample (voltage sixSamples))) 0
  = sqrt (X 1%nat * X 1%nat + X 5%nat * X 5%nat).
Proof.
  apply (truncated_spectrum_bins halfComplex sampleGenerator
           (sample (voltage sixSamples)) 1).
  - reflexivity.
  - simpl. lia.
Defined.

Lemma autocorrelation_input_witness :
  let v := sample (voltage sixSamples) in
  let X := halfComplex (windowedValues sampleGenerator v) in
  let entry := nth 4 (snd (transformed halfComplex sampleGenerator v)) 0 in
  entry = 0 /\ 0 <= entry.
Proof.
  apply (autocorrelation_input halfComplex sampleGenerator
           (sample (voltage sixSamples)) 4).
  - simpl. lia.
  - reflexivity.
  - simpl. lia.
Defined.

Lemma scan_without_peak_witness :
  peakPosition (scanCorrelation fallingCorrelation 8) = 0%nat
  /\ autocorrelationFrequency 1
       (peakPosition (scanCorrelation fallingCorrelation 8)) = 0.
Proof.
  apply (scan_without_peak fallingCorrelation 8 1).
  right. intros q Hq. change (8 / 2)%nat with 4%nat in Hq.
  assert (Hcases : q = 1%nat \/ q = 2%nat \/ q = 3%nat) by lia.
  destruct Hcases as [-> | [-> | ->]]; simpl; lra.
Defined.

Lemma frequency_below_nyquist_witness :
  0 <= frequency fourSamplesAnalyzed < 1 / (2 * 1).
Proof.
  apply (frequency_below_nyquist zeroTransform zeroTransform decimalLog
           sampleGenerator 0 fourSamples).
  - simpl. lia.
  - reflexivity.
  - simpl. lra.
Defined.

Lemma short_record_witness :
  sample (spectrum fourSamplesAnalyzed)
  = map (dBValue decimalLog
           (dBOffset decimalLog (postprocessing sampleGenerator) 4)
           (dBOffsetLimit (postprocessing sampleGenerator)))
        (truncatedSpectrum zeroTransform sampleGenerator [1; 2; 3; 4]).
Proof.
  destruct (short_record zeroTransform zeroTransform decimalLog sampleGenerator 0
              fourSamples) as [Hspectrum _].
  - discriminate.
  - simpl. lia.
  - exact Hspectrum.
Defined.

Lemma window_attenuates_witness :
  Rabs (nth 1 (windowedValues sampleGenerator [1; 2; 3; 4]) 0)
  <= Rabs (nth 1 [1; 2; 3; 4] 0 - mean [1; 2; 3; 4]).
Proof.
  apply (window_attenuates sampleGenerator [1; 2; 3; 4] 1).
  - exact I.
  - reflexivity.
  - simpl. lia.
  - reflexivity.
  - simpl. lia.
Defined.


Lemma statistics_ordered_witness :
  0 <= ac fourSamplesAnalyzed <= rms fourSamplesAnalyzed
  /\ Rabs (dc fourSamplesAnalyzed) <= rms fourSamplesAnalyzed.
Proof.
  apply (statistics_ordered zeroTransform zeroTransform decimalLog
           sampleGenerator 0 fourSamples).
  discriminate.
Defined.

Lemma constant_signal_witness :
  let analyzed :=
    snd (processChannel zeroTransform zeroTransform decimalLog sampleGenerator 0
           constantChannel) in
  dc analyzed = 5
  /\ ac analyzed = 0
  /\ rms analyzed = Rabs 5
  /\ forall i : nat,
       nth i (windowedValues sampleGenerator (sample (voltage constantChannel))) 0
       = 0.
Proof.
  apply (constant_signal zeroTransform zeroTransform decimalLog sampleGenerator 0
           constantChannel 5 2).
  reflexivity.
Defined.
